(** * komega: retryable probes over a process-wide default client

    A shallow embedding of [pkg/envtest/komega/default.go].

    Go state is threaded explicitly: a [World] holds the package variable
    [defaultK], the heap of the instances made by [new(V)] and the state of
    every store a [client.Client] value may refer to.  A Go function is a
    world transformer that returns a value or panics; a Go closure is the
    Rocq closure of the same shape, so what a probe captures when it is built
    and what it reads when it is invoked is read off the definitions. *)

From Stdlib Require Import ZArith Lia.
From stdpp Require Import base option strings functions gmap.

Local Open Scope positive_scope.

(** ** Values *)

(** [types.NamespacedName]. *)
Record NamespacedName := mkNamespacedName {
  Namespace : string;
  Name : string;
}.

#[global] Instance NamespacedName_eq_dec : EqDecision NamespacedName.
Proof. solve_decision. Defined.

(** What a Go [panic] carries: the string handed to [panic], or the run-time
    error of a call through a nil pointer or a nil interface. *)
Inductive PanicValue :=
  | PanicString (msg : string)
  | NilDereference.

(** The outcome of running Go code from a state [S]. *)
Inductive Result (S A : Type) :=
  | Ok (a : A) (s : S)
  | Panic (p : PanicValue).
Arguments Ok {S A} a s.
Arguments Panic {S A} p.

(** The constraint [Obj[V]]: [*V] implements [client.Object].  Only the
    accessors the package calls are kept; [new_V] is the zero value that
    [new(V)] points to.  The three equations are the contract of the
    accessors of an object's metadata. *)
Class Obj (V : Type) := {
  new_V : V;
  GetName : V -> string;
  GetNamespace : V -> string;
  SetName : string -> V -> V;
  SetNamespace : string -> V -> V;
  GetName_SetName : forall n v, GetName (SetName n v) = n;
  GetName_SetNamespace : forall ns v, GetName (SetNamespace ns v) = GetName v;
  GetNamespace_SetNamespace : forall ns v, GetNamespace (SetNamespace ns v) = ns;
}.

(** The constraint [ObjList[V]]: only [new(V)] is used. *)
Class ObjList (L : Type) := {
  new_L : L;
}.

(** The interface [client.Client] as the package uses it, over the state
    [Store] of one store.  A call mutates its argument in place and returns an
    error value ([None] is Go's nil error); here the new contents of the
    argument and the new state of the store are returned with it.  The store
    is an external collaborator: nothing is assumed about these functions. *)
Class Client (Store V L Err UpdateOption ListOption : Type) := {
  store_Get : NamespacedName -> V -> Store -> Store * V * option Err;
  store_List : L -> list ListOption -> Store -> Store * L * option Err;
  store_Update : V -> list UpdateOption -> Store -> Store * V * option Err;
  store_Status_Update : V -> list UpdateOption -> Store -> Store * V * option Err;
}.

(** A pointer ([*V]).  A pointer that is not in the heap (nil among them)
    cannot be dereferenced. *)
Definition loc := positive.

(** A non-nil [client.Client] value names one store. *)
Definition ClientRef := nat.

(** [type komega struct { client client.Client; ... }]; [None] is the nil
    interface.  No code writes a field of an existing struct ([SetClient]
    makes a new one), so the pointer [*komega] is modelled by the struct it
    points to. *)
Record komega := mkKomega {
  client : option ClientRef;
}.

(** ** Go code as state transformers

    Code that runs from a state [S] and returns an [A] or panics. *)

Definition M (S A : Type) : Type := S -> Result S A.

Definition ret {S A} (a : A) : M S A := fun w => Ok a w.

Definition bind {S A B} (m : M S A) (k : A -> M S B) : M S B := fun w =>
  match m w with
  | Ok a w' => k a w'
  | Panic p => Panic p
  end.

Definition panic {S A} (p : PanicValue) : M S A := fun _ => Panic p.

Declare Scope go_scope.
Delimit Scope go_scope with go.
Notation "x <- m ;; k" := (bind m (fun x => k))
  (at level 100, m at next level, right associativity) : go_scope.
Notation "m ;; k" := (bind m (fun _ => k))
  (at level 100, right associativity) : go_scope.
Local Open Scope go_scope.

Section Komega.

Context {V L Store Err UpdateOption ListOption : Type}.
Context `{!Obj V, !ObjList L, !Client Store V L Err UpdateOption ListOption}.

(** ** The state of the process *)

Record World := mkWorld {
  defaultK : komega;              (* var defaultK *)
  objs : gmap loc V;              (* instances of V *)
  lists : gmap loc L;             (* instances of the list type *)
  next : loc;                     (* the next address new() hands out *)
  stores : ClientRef -> Store;    (* the state behind each client *)
}.

Definition set_defaultK (k : komega) (w : World) : World :=
  mkWorld k (objs w) (lists w) (next w) (stores w).
Definition set_objs (h : gmap loc V) (w : World) : World :=
  mkWorld (defaultK w) h (lists w) (next w) (stores w).
Definition set_lists (h : gmap loc L) (w : World) : World :=
  mkWorld (defaultK w) (objs w) h (next w) (stores w).
Definition set_next (n : loc) (w : World) : World :=
  mkWorld (defaultK w) (objs w) (lists w) n (stores w).
Definition set_stores (s : ClientRef -> Store) (w : World) : World :=
  mkWorld (defaultK w) (objs w) (lists w) (next w) s.

Local Abbreviation Go := (M World).

(** The instance behind [obj] overwritten with [v]. *)
Definition put_obj (obj : loc) (v : V) (w : World) : World :=
  set_objs (<[obj := v]> (objs w)) w.

(** The list behind [obj] overwritten with [l]. *)
Definition put_list (obj : loc) (l : L) (w : World) : World :=
  set_lists (<[obj := l]> (lists w)) w.

(** The store behind client [c] moved to the state [s]. *)
Definition put_store (c : ClientRef) (s : Store) (w : World) : World :=
  set_stores (<[c := s]> (stores w)) w.

(** The process as it starts: [var defaultK = &komega{}], nothing allocated,
    the stores in the states [s]. *)
Definition init_world (s : ClientRef -> Store) : World :=
  mkWorld (mkKomega None) ∅ ∅ 1 s.

(** ** Instances and pointers *)

(** [new(V)] for an object type: a new address holding the zero value. *)
Definition new_obj : Go loc := fun w =>
  Ok (next w) (set_next (Pos.succ (next w)) (put_obj (next w) new_V w)).

(** [new(V)] for a list type. *)
Definition new_list : Go loc := fun w =>
  Ok (next w) (set_next (Pos.succ (next w)) (put_list (next w) new_L w)).

(** A method of [*V] that reads the instance behind [obj]. *)
Definition load (obj : loc) : Go V := fun w =>
  match objs w !! obj with
  | Some v => Ok v w
  | None => Panic NilDereference
  end.

(** A method of [*V] that writes the instance behind [obj], such as
    [obj.SetName(n)]. *)
Definition update (obj : loc) (g : V -> V) : Go unit := fun w =>
  match objs w !! obj with
  | Some v => Ok tt (put_obj obj (g v) w)
  | None => Panic NilDereference
  end.

(** ** Calls through a [client.Client] value

    A call on the nil interface panics.  Otherwise the store behind the
    client answers from its current state; the instance behind the pointer
    and the state of the store are overwritten with what it returns. *)

Definition client_Get (c : option ClientRef) (key : NamespacedName) (obj : loc)
  : Go (option Err) := fun w =>
  match c with
  | None => Panic NilDereference
  | Some c =>
    match objs w !! obj with
    | None => Panic NilDereference
    | Some v =>
      let '(s, v', err) := store_Get key v (stores w c) in
      Ok err (put_store c s (put_obj obj v' w))
    end
  end.

Definition client_List (c : option ClientRef) (obj : loc) (opts : list ListOption)
  : Go (option Err) := fun w =>
  match c with
  | None => Panic NilDereference
  | Some c =>
    match lists w !! obj with
    | None => Panic NilDereference
    | Some l =>
      let '(s, l', err) := store_List l opts (stores w c) in
      Ok err (put_store c s (put_list obj l' w))
    end
  end.

Definition client_Update (c : option ClientRef) (obj : loc) (opts : list UpdateOption)
  : Go (option Err) := fun w =>
  match c with
  | None => Panic NilDereference
  | Some c =>
    match objs w !! obj with
    | None => Panic NilDereference
    | Some v =>
      let '(s, v', err) := store_Update v opts (stores w c) in
      Ok err (put_store c s (put_obj obj v' w))
    end
  end.

Definition client_Status_Update (c : option ClientRef) (obj : loc)
  (opts : list UpdateOption) : Go (option Err) := fun w =>
  match c with
  | None => Panic NilDereference
  | Some c =>
    match objs w !! obj with
    | None => Panic NilDereference
    | Some v =>
      let '(s, v', err) := store_Status_Update v opts (stores w c) in
      Ok err (put_store c s (put_obj obj v' w))
    end
  end.

(** ** The methods of type komega *)

(** The key of the instance behind [obj]:
    [types.NamespacedName{Name: obj.GetName(), Namespace: obj.GetNamespace()}]. *)
Definition key_of (obj : loc) : Go NamespacedName :=
  v <- load obj ;;
  ret (mkNamespacedName (GetNamespace v) (GetName v)).

(** Modelled from the spec: the method [komega.Get], which is declared in
    a file that is not among the sources.  "fetchProbe(resourceObject)
    returns a function that, on each call, fetches the resource identified by
    the object's own identity fields directly into resourceObject (mutating
    it in place) and returns any error from the store"; the identity is
    "immutable once captured inside a probe closure", so the key is read when
    the probe is built.  The probe calls the client of its receiver [k]. *)
Definition komega_Get (k : komega) (obj : loc) : Go (Go (option Err)) :=
  key <- key_of obj ;;
  ret (client_Get (client k) key obj).

(** Modelled from the spec: the method [komega.List], not among the
    sources.  "listProbe: same contract as fetchProbe but for collection
    queries; mutates listObject in place with matching items per the given
    filter options." *)
Definition komega_List (k : komega) (obj : loc) (opts : list ListOption)
  : Go (Go (option Err)) :=
  ret (client_List (client k) obj opts).

(** Modelled from the spec: the method [komega.Update], not among the
    sources.  [Update] in [default.go] hands it the instance, the mutation as
    a function of no argument and the options, and returns what it returns,
    so the steps that the spec gives for the update probe are the steps of
    this probe: "on each call: (a) fetches the current resource state for
    identity into [an] instance, (b) applies mutatorFn to that instance,
    (c) writes the instance back to the store via an update operation,
    (d) returns any error from either step".  The instance is the argument
    [obj]: which instance that is, is up to the caller.  The single error
    returned is the one of the fetch when the fetch fails, which ends the
    call, and the one of the write otherwise. *)
Definition komega_Update (k : komega) (obj : loc) (updateFunc : Go unit)
  (opts : list UpdateOption) : Go (Go (option Err)) :=
  key <- key_of obj ;;
  ret (err <- client_Get (client k) key obj ;;
       match err with
       | Some e => ret (Some e)
       | None => updateFunc ;; client_Update (client k) obj opts
       end).

(** Modelled from the spec: the method [komega.UpdateStatus], not among
    the sources.  "identical to updateProbe except the write targets the
    resource's status sub-resource instead of its main body". *)
Definition komega_UpdateStatus (k : komega) (obj : loc) (updateFunc : Go unit)
  (opts : list UpdateOption) : Go (Go (option Err)) :=
  key <- key_of obj ;;
  ret (err <- client_Get (client k) key obj ;;
       match err with
       | Some e => ret (Some e)
       | None => updateFunc ;; client_Status_Update (client k) obj opts
       end).

(** ** default.go *)

(** [type GenericUpdateFunc[T client.Object] func(T client.Object)]: Go code
    that is handed the pointer. *)
Definition GenericUpdateFunc : Type := loc -> Go unit.

(** Reading the package variable [defaultK]. *)
Definition read_defaultK : Go komega := fun w => Ok (defaultK w) w.

(** [defaultK = &komega{client: c}] *)
Definition SetClient (c : option ClientRef) : Go unit := fun w =>
  Ok tt (set_defaultK (mkKomega c) w).

Definition client_not_set : PanicValue :=
  PanicString "Komega's client is not set. Use SetClient to set it.".

Definition checkClient : Go unit :=
  k <- read_defaultK ;;
  match client k with
  | None => panic client_not_set
  | Some _ => ret tt
  end.

Definition Get (obj : loc) : Go (Go (option Err)) :=
  checkClient ;;
  k <- read_defaultK ;;
  komega_Get k obj.

Definition List (obj : loc) (opts : list ListOption) : Go (Go (option Err)) :=
  checkClient ;;
  k <- read_defaultK ;;
  komega_List k obj opts.

Definition Update (nn : NamespacedName) (f : GenericUpdateFunc)
  (opts : list UpdateOption) : Go (Go (option Err)) :=
  checkClient ;;
  obj <- new_obj ;;
  update obj (SetName (Name nn)) ;;
  update obj (SetNamespace (Namespace nn)) ;;
  k <- read_defaultK ;;
  komega_Update k obj (f obj) opts.

Definition UpdateStatus (nn : NamespacedName) (f : GenericUpdateFunc)
  (opts : list UpdateOption) : Go (Go (option Err)) :=
  checkClient ;;
  obj <- new_obj ;;
  update obj (SetName (Name nn)) ;;
  update obj (SetNamespace (Namespace nn)) ;;
  k <- read_defaultK ;;
  komega_UpdateStatus k obj (f obj) opts.

Definition Object (nn : NamespacedName) : Go (Go (loc * option Err)) :=
  checkClient ;;
  ret (obj <- new_obj ;;
       update obj (SetName (Name nn)) ;;
       update obj (SetNamespace (Namespace nn)) ;;
       k <- read_defaultK ;;
       get <- komega_Get k obj ;;
       err <- get ;;
       ret (obj, err)).

Definition ObjectList (opts : list ListOption) : Go (Go (loc * option Err)) :=
  checkClient ;;
  ret (obj <- new_list ;;
       k <- read_defaultK ;;
       list <- komega_List k obj opts ;;
       err <- list ;;
       ret (obj, err)).

(** ** Vocabulary of the statements *)

(** The zero value with the identity [nn] stamped onto it: what [new(V)]
    holds after [SetName(nn.Name)] and [SetNamespace(nn.Namespace)]. *)
Definition stamp (nn : NamespacedName) : V :=
  SetNamespace (Namespace nn) (SetName (Name nn) new_V).

(** The world after [new(V)] has been set to [v]. *)
Definition alloc_obj (v : V) (w : World) : World :=
  set_next (Pos.succ (next w)) (put_obj (next w) v w).

(** The world after [new(V)] for a list type. *)
Definition alloc_list (l : L) (w : World) : World :=
  set_next (Pos.succ (next w)) (put_list (next w) l w).

(** A mutator that only assigns to fields of the instance it is handed. *)
Definition in_place (g : V -> V) : GenericUpdateFunc := fun obj => update obj g.

(** Running [m] from [w] returns and an object instance exists afterwards
    that did not exist before. *)
Definition makes_instance {A} (m : Go A) (w : World) : Prop :=
  exists a w', m w = Ok a w' /\
    exists obj, objs w !! obj = None /\ is_Some (objs w' !! obj).

(** Every instance was handed out by [new]: the addresses in use are below
    [next]. *)
Definition heap_ok (w : World) : Prop :=
  (forall obj, is_Some (objs w !! obj) -> obj < next w) /\
  (forall obj, is_Some (lists w !! obj) -> obj < next w).

(** [probe] invoked [n] times in a row, as a caller that polls it does; the
    results in the order of the invocations. *)
Fixpoint invoke_n {A} (n : nat) (probe : Go A) : Go (list A) :=
  match n with
  | O => ret []
  | S n' =>
    a <- probe ;;
    rest <- invoke_n n' probe ;;
    ret (a :: rest)
  end.

(** [w'] differs from [w] at most in the instance behind [obj], in the state
    of the store behind [c] and in the allocator. *)
Definition same_but_obj (obj : loc) (c : ClientRef) (w w' : World) : Prop :=
  defaultK w' = defaultK w /\
  lists w' = lists w /\
  (forall o, o <> obj -> objs w' !! o = objs w !! o) /\
  (forall c', c' <> c -> stores w' c' = stores w c').

(** [w'] differs from [w] at most in the list behind [obj], in the state of
    the store behind [c] and in the allocator. *)
Definition same_but_list (obj : loc) (c : ClientRef) (w w' : World) : Prop :=
  defaultK w' = defaultK w /\
  objs w' = objs w /\
  (forall o, o <> obj -> lists w' !! o = lists w !! o) /\
  (forall c', c' <> c -> stores w' c' = stores w c').

End Komega.

(** ** The resource type and the store of the test *)

(** [appsv1.Deployment], cut down to the fields that the test and the
    examples read: the identity, [Spec.Replicas] (a [*int32]) and
    [Status.AvailableReplicas]. *)
Record Deployment := mkDeployment {
  ObjectMeta_Namespace : string;
  ObjectMeta_Name : string;
  Spec_Replicas : option Z;
  Status_AvailableReplicas : Z;
}.

#[global] Instance Deployment_Obj : Obj Deployment := {|
  new_V := mkDeployment EmptyString EmptyString None 0;
  GetName d := ObjectMeta_Name d;
  GetNamespace d := ObjectMeta_Namespace d;
  SetName n d :=
    mkDeployment (ObjectMeta_Namespace d) n (Spec_Replicas d)
                 (Status_AvailableReplicas d);
  SetNamespace ns d :=
    mkDeployment ns (ObjectMeta_Name d) (Spec_Replicas d)
                 (Status_AvailableReplicas d);
  GetName_SetName _ _ := eq_refl;
  GetName_SetNamespace _ _ := eq_refl;
  GetNamespace_SetNamespace _ _ := eq_refl;
|}.

(** [appsv1.DeploymentList]. *)
Record DeploymentList := mkDeploymentList {
  Items : list Deployment;
}.

#[global] Instance DeploymentList_ObjList : ObjList DeploymentList := {|
  new_L := mkDeploymentList [];
|}.

(** The store behind the client of the test.  The client is an external
    collaborator of the package; this one is the store that the scenarios of
    the spec describe, and the general statements below do not depend on
    it. *)
Module fake.

(** Modelled from the spec: the state of the fake client, which is not among
    the sources: a store "analogous to a key-value store keyed by
    namespace+name, plus filtered listing".  It is the list of the resources
    it holds, at most one for a name in a namespace. *)
Definition Store := list Deployment.

Inductive Err :=
  | NotFound (key : NamespacedName).

Inductive ListOption :=
  | InNamespace (ns : string).

Inductive UpdateOption :=
  | DryRunAll.

Definition key_of (d : Deployment) : NamespacedName :=
  mkNamespacedName (ObjectMeta_Namespace d) (ObjectMeta_Name d).

Definition named (nn : NamespacedName) (d : Deployment) : bool :=
  bool_decide (key_of d = nn).

(** The resource of the store named [nn]. *)
Definition lookup (nn : NamespacedName) (s : Store) : option Deployment :=
  find (named nn) s.

(** The store with the resource named as [d] replaced by [d]. *)
Definition replace (d : Deployment) (s : Store) : Store :=
  map (fun d' => if named (key_of d) d' then d else d') s.

Definition selected (opts : list ListOption) (d : Deployment) : bool :=
  forallb (fun o => match o with
                    | InNamespace ns => bool_decide (ObjectMeta_Namespace d = ns)
                    end) opts.

Definition dry_run (opts : list UpdateOption) : bool :=
  existsb (fun o => match o with DryRunAll => true end) opts.

(** Modelled from the spec: the fetch of the fake client.  A resource that is
    there is copied over the instance, "on success the passed object reflects
    the latest stored state"; one that is not is reported and the instance
    is left as it was, "typically unchanged". *)
Definition Get (nn : NamespacedName) (d : Deployment) (s : Store)
  : Store * Deployment * option Err :=
  match lookup nn s with
  | Some d' => (s, d', None)
  | None => (s, d, Some (NotFound nn))
  end.

Definition List (l : DeploymentList) (opts : list ListOption) (s : Store)
  : Store * DeploymentList * option Err :=
  (s, mkDeploymentList (List.filter (selected opts) s), None).

(** The main body is written, the status is kept. *)
Definition Update (d : Deployment) (opts : list UpdateOption) (s : Store)
  : Store * Deployment * option Err :=
  match lookup (key_of d) s with
  | Some d' =>
    let d'' := mkDeployment (ObjectMeta_Namespace d) (ObjectMeta_Name d)
                 (Spec_Replicas d) (Status_AvailableReplicas d') in
    (if dry_run opts then s else replace d'' s, d'', None)
  | None => (s, d, Some (NotFound (key_of d)))
  end.

(** The status is written, the main body is kept. *)
Definition Status_Update (d : Deployment) (opts : list UpdateOption) (s : Store)
  : Store * Deployment * option Err :=
  match lookup (key_of d) s with
  | Some d' =>
    let d'' := mkDeployment (ObjectMeta_Namespace d) (ObjectMeta_Name d)
                 (Spec_Replicas d') (Status_AvailableReplicas d) in
    (if dry_run opts then s else replace d'' s, d'', None)
  | None => (s, d, Some (NotFound (key_of d)))
  end.

#[global] Instance fake_Client
  : Client Store Deployment DeploymentList Err UpdateOption ListOption := {|
  store_Get := Get;
  store_List := List;
  store_Update := Update;
  store_Status_Update := Status_Update;
|}.

(** The resource of the test. *)
Definition exampleDeployment : Deployment :=
  mkDeployment "default" "test" (Some 5%Z) 0.

(** Modelled from the spec: the helper [createFakeClient] of the test, which
    is not among the sources: "a store containing a resource named test in
    namespace default with a replica count of 5". *)
Definition createFakeClient : Store := [exampleDeployment].

End fake.

(** The client value [fc] of the test, and a second client. *)
Definition fc : ClientRef := 0%nat.
Definition other_client : ClientRef := 1%nat.

(** The identity that the test asks for. *)
Definition test_nn : NamespacedName := mkNamespacedName "default" "test".

(** The process of the test before [SetClient]: client 0 is the fake client. *)
Definition test_world : @World Deployment DeploymentList fake.Store :=
  init_world (fun _ => fake.createFakeClient).

(** A second store, in which the resource of the test has 7 replicas. *)
Definition other_store : fake.Store :=
  [mkDeployment "default" "test" (Some 7%Z) 0].

(** Client 0 is the fake client of the test, every other client is
    [other_store]. *)
Definition two_stores (c : ClientRef) : fake.Store :=
  match c with
  | O => fake.createFakeClient
  | S _ => other_store
  end.

(** [func(d *appsv1.Deployment) { *d.Spec.Replicas++ }] on a set field. *)
Definition incr_replicas (d : Deployment) : Deployment :=
  mkDeployment (ObjectMeta_Namespace d) (ObjectMeta_Name d)
               (Z.succ <$> Spec_Replicas d) (Status_AvailableReplicas d).

(** An identity that no store holds. *)
Definition missing_nn : NamespacedName := mkNamespacedName "default" "missing".

(** A process with two stores in which [SetClient] has made client 0 the
    default. *)
Definition configured_world : @World Deployment DeploymentList fake.Store :=
  set_defaultK (mkKomega (Some fc)) (init_world two_stores).

(** The same after the caller has made a [Deployment] named as in the test,
    at address 1. *)
Definition world_with_deployment : @World Deployment DeploymentList fake.Store :=
  alloc_obj (stamp test_nn) configured_world.

(** The test: [SetClient(fc)], then the probe of [Object] invoked once. *)
Definition TestDefaultObject : Result World (loc * option fake.Err) :=
  (SetClient (Some fc) ;;
   probe <- Object test_nn ;;
   probe) test_world.

(** The scenario with the probe of [Get]: the caller makes a [Deployment]
    with the name and the namespace of the test and invokes the probe. *)
Definition TestDefaultGet : Result World (loc * option fake.Err) :=
  (SetClient (Some fc) ;;
   deployment <- new_obj ;;
   update deployment (SetName "test") ;;
   update deployment (SetNamespace "default") ;;
   probe <- Get deployment ;;
   err <- probe ;;
   ret (deployment, err)) test_world.

(** * Properties *)

(** Rewriting with what a theorem says about one invocation, the [let]s of
    its statement unfolded. *)
Ltac rewrite_run H :=
  let E := fresh "E" in
  pose proof H as E; cbv zeta in E; rewrite E; clear E.

Section Properties.

Context {V L Store Err UpdateOption ListOption : Type}.
Context `{!Obj V, !ObjList L, !Client Store V L Err UpdateOption ListOption}.

Local Abbreviation World := (@World V L Store).
Local Abbreviation Go := (M World).

Implicit Types (w : World) (obj : loc) (nn : NamespacedName) (c : ClientRef).

(** ** The default client *)

Lemma checkClient_set w c :
  client (defaultK w) = Some c -> checkClient w = Ok tt w.
Proof. unfold checkClient, bind, read_defaultK. intros ->. reflexivity. Qed.

Lemma checkClient_unset w :
  client (defaultK w) = None -> checkClient w = Panic client_not_set.
Proof. unfold checkClient, bind, read_defaultK. intros ->. reflexivity. Qed.

Lemma bind_checkClient_unset {A} (k : unit -> Go A) w :
  client (defaultK w) = None -> (bind checkClient k) w = Panic client_not_set.
Proof. intros Hc. unfold bind. rewrite (checkClient_unset _ Hc). reflexivity. Qed.

Lemma bind_checkClient_set {A} (k : unit -> Go A) w c :
  client (defaultK w) = Some c -> (bind checkClient k) w = k tt w.
Proof. intros Hc. unfold bind. rewrite (checkClient_set _ _ Hc). reflexivity. Qed.

(** C2: while no client is set, each of the six operations panics with the
    configuration error at once; no probe is returned, so nothing is deferred
    to a probe's result. *)
Theorem unconfigured_panics w :
  client (defaultK w) = None ->
  (forall obj, Get obj w = Panic client_not_set) /\
  (forall obj opts, List obj opts w = Panic client_not_set) /\
  (forall nn f opts, Update nn f opts w = Panic client_not_set) /\
  (forall nn f opts, UpdateStatus nn f opts w = Panic client_not_set) /\
  (forall nn, Object nn w = Panic client_not_set) /\
  (forall opts, ObjectList opts w = Panic client_not_set).
Proof.
  intros Hc. repeat split; intros; apply bind_checkClient_unset, Hc.
Qed.

(** C10: [SetClient(nil)] returns and leaves [defaultK] with no client, as it
    is when the process starts; each of the six operations then panics with
    the configuration error. *)
Theorem SetClient_nil_unconfigured w :
  exists w',
    SetClient None w = Ok tt w' /\
    (forall s : ClientRef -> Store, defaultK w' = defaultK (init_world s : World)) /\
    (forall obj, Get obj w' = Panic client_not_set) /\
    (forall obj opts, List obj opts w' = Panic client_not_set) /\
    (forall nn f opts, Update nn f opts w' = Panic client_not_set) /\
    (forall nn f opts, UpdateStatus nn f opts w' = Panic client_not_set) /\
    (forall nn, Object nn w' = Panic client_not_set) /\
    (forall opts, ObjectList opts w' = Panic client_not_set).
Proof.
  eexists. split; [reflexivity|]. split; [reflexivity|].
  repeat split; intros; apply bind_checkClient_unset; reflexivity.
Qed.

(** ** Building blocks *)

Lemma key_stamp nn :
  mkNamespacedName (GetNamespace (stamp nn)) (GetName (stamp nn)) = nn.
Proof.
  unfold stamp.
  rewrite GetNamespace_SetNamespace, GetName_SetNamespace, GetName_SetName.
  destruct nn; reflexivity.
Qed.

(** [new(V)] followed by the two setters leaves a stamped instance at the
    address that [new] handed out. *)
Lemma new_stamped {A} nn (k : loc -> Go A) w :
  (obj <- new_obj ;;
   update obj (SetName (Name nn)) ;;
   update obj (SetNamespace (Namespace nn)) ;;
   k obj) w
  = k (next w) (alloc_obj (stamp nn) w).
Proof.
  unfold bind, new_obj, update, alloc_obj, put_obj, stamp. simpl.
  rewrite lookup_insert_eq. simpl. rewrite lookup_insert_eq.
  rewrite !insert_insert_eq. reflexivity.
Qed.

Lemma key_of_load w obj v :
  objs w !! obj = Some v ->
  key_of obj w = Ok (mkNamespacedName (GetNamespace v) (GetName v)) w.
Proof. intros Hv. unfold key_of, bind, load. rewrite Hv. reflexivity. Qed.

Lemma key_of_nil w obj :
  objs w !! obj = None -> key_of obj w = Panic NilDereference.
Proof. intros Hv. unfold key_of, bind, load. rewrite Hv. reflexivity. Qed.

Lemma objs_alloc_obj v w : objs (alloc_obj v w) !! next w = Some v.
Proof. unfold alloc_obj, put_obj. simpl. apply lookup_insert_eq. Qed.

(** ** Calls to the store *)

Lemma client_Get_run c key obj w v :
  objs w !! obj = Some v ->
  client_Get (Some c) key obj w =
    Ok (store_Get key v (stores w c)).2
       (put_store c (store_Get key v (stores w c)).1.1
          (put_obj obj (store_Get key v (stores w c)).1.2 w)).
Proof.
  intros Hv. unfold client_Get. rewrite Hv.
  destruct (store_Get key v (stores w c)) as [[s v'] err]. reflexivity.
Qed.

Lemma client_List_run c obj opts w l :
  lists w !! obj = Some l ->
  client_List (Some c) obj opts w =
    Ok (store_List l opts (stores w c)).2
       (put_store c (store_List l opts (stores w c)).1.1
          (put_list obj (store_List l opts (stores w c)).1.2 w)).
Proof.
  intros Hl. unfold client_List. rewrite Hl.
  destruct (store_List l opts (stores w c)) as [[s l'] err]. reflexivity.
Qed.

Lemma client_Update_run c obj opts w v :
  objs w !! obj = Some v ->
  client_Update (Some c) obj opts w =
    Ok (store_Update v opts (stores w c)).2
       (put_store c (store_Update v opts (stores w c)).1.1
          (put_obj obj (store_Update v opts (stores w c)).1.2 w)).
Proof.
  intros Hv. unfold client_Update. rewrite Hv.
  destruct (store_Update v opts (stores w c)) as [[s v'] err]. reflexivity.
Qed.

Lemma client_Status_Update_run c obj opts w v :
  objs w !! obj = Some v ->
  client_Status_Update (Some c) obj opts w =
    Ok (store_Status_Update v opts (stores w c)).2
       (put_store c (store_Status_Update v opts (stores w c)).1.1
          (put_obj obj (store_Status_Update v opts (stores w c)).1.2 w)).
Proof.
  intros Hv. unfold client_Status_Update. rewrite Hv.
  destruct (store_Status_Update v opts (stores w c)) as [[s v'] err]. reflexivity.
Qed.

(** A call that returns was made on a client and on an instance that exist,
    and its result is the one of the [_run] lemma. *)
Lemma client_Get_inv k key obj w err w' :
  client_Get k key obj w = Ok err w' ->
  exists c v, k = Some c /\ objs w !! obj = Some v /\
    err = (store_Get key v (stores w c)).2 /\
    w' = put_store c (store_Get key v (stores w c)).1.1
           (put_obj obj (store_Get key v (stores w c)).1.2 w).
Proof.
  destruct k as [c|]; [|discriminate].
  destruct (objs w !! obj) as [v|] eqn:Hv; [|unfold client_Get; rewrite Hv; discriminate].
  rewrite (client_Get_run _ _ _ _ _ Hv). intros [= <- <-]. eauto 10.
Qed.

Lemma client_List_inv k obj opts w err w' :
  client_List k obj opts w = Ok err w' ->
  exists c l, k = Some c /\ lists w !! obj = Some l /\
    err = (store_List l opts (stores w c)).2 /\
    w' = put_store c (store_List l opts (stores w c)).1.1
           (put_list obj (store_List l opts (stores w c)).1.2 w).
Proof.
  destruct k as [c|]; [|discriminate].
  destruct (lists w !! obj) as [l|] eqn:Hl; [|unfold client_List; rewrite Hl; discriminate].
  rewrite (client_List_run _ _ _ _ _ Hl). intros [= <- <-]. eauto 10.
Qed.

Lemma client_Update_inv k obj opts w err w' :
  client_Update k obj opts w = Ok err w' ->
  exists c v, k = Some c /\ objs w !! obj = Some v /\
    err = (store_Update v opts (stores w c)).2 /\
    w' = put_store c (store_Update v opts (stores w c)).1.1
           (put_obj obj (store_Update v opts (stores w c)).1.2 w).
Proof.
  destruct k as [c|]; [|discriminate].
  destruct (objs w !! obj) as [v|] eqn:Hv; [|unfold client_Update; rewrite Hv; discriminate].
  rewrite (client_Update_run _ _ _ _ _ Hv). intros [= <- <-]. eauto 10.
Qed.

Lemma client_Status_Update_inv k obj opts w err w' :
  client_Status_Update k obj opts w = Ok err w' ->
  exists c v, k = Some c /\ objs w !! obj = Some v /\
    err = (store_Status_Update v opts (stores w c)).2 /\
    w' = put_store c (store_Status_Update v opts (stores w c)).1.1
           (put_obj obj (store_Status_Update v opts (stores w c)).1.2 w).
Proof.
  destruct k as [c|]; [|discriminate].
  destruct (objs w !! obj) as [v|] eqn:Hv;
    [|unfold client_Status_Update; rewrite Hv; discriminate].
  rewrite (client_Status_Update_run _ _ _ _ _ Hv). intros [= <- <-]. eauto 10.
Qed.

(** An operation that returned a probe ran with a client set. *)
Lemma configured_or_unset w : {c | client (defaultK w) = Some c} + {client (defaultK w) = None}.
Proof. destruct (client (defaultK w)) as [c|]; [left; exists c|right]; reflexivity. Qed.

(** ** What each operation returns once a client is set *)

Lemma Get_configured w c obj v :
  client (defaultK w) = Some c ->
  objs w !! obj = Some v ->
  Get obj w =
    Ok (client_Get (Some c) (mkNamespacedName (GetNamespace v) (GetName v)) obj) w.
Proof.
  intros Hc Hv. unfold Get. rewrite (bind_checkClient_set _ _ _ Hc).
  cbv beta iota delta [bind read_defaultK komega_Get].
  rewrite (key_of_load _ _ _ Hv). unfold ret. rewrite Hc. reflexivity.
Qed.

Lemma Get_nil w c obj :
  client (defaultK w) = Some c ->
  objs w !! obj = None ->
  Get obj w = Panic NilDereference.
Proof.
  intros Hc Hv. unfold Get. rewrite (bind_checkClient_set _ _ _ Hc).
  cbv beta iota delta [bind read_defaultK komega_Get].
  rewrite (key_of_nil _ _ Hv). reflexivity.
Qed.

Lemma List_configured w c obj opts :
  client (defaultK w) = Some c ->
  List obj opts w = Ok (client_List (Some c) obj opts) w.
Proof.
  intros Hc. unfold List. rewrite (bind_checkClient_set _ _ _ Hc).
  cbv beta iota delta [bind read_defaultK komega_List ret].
  rewrite Hc. reflexivity.
Qed.

Lemma Update_configured w c nn f opts :
  client (defaultK w) = Some c ->
  Update nn f opts w =
    Ok (err <- client_Get (Some c) nn (next w) ;;
        match err with
        | Some e => ret (Some e)
        | None => f (next w) ;; client_Update (Some c) (next w) opts
        end)
       (alloc_obj (stamp nn) w).
Proof.
  intros Hc. unfold Update. rewrite (bind_checkClient_set _ _ _ Hc).
  rewrite new_stamped.
  unfold bind at 1. unfold read_defaultK, komega_Update.
  unfold bind at 1. rewrite (key_of_load _ _ _ (objs_alloc_obj _ _)).
  rewrite key_stamp. unfold ret at 1.
  change (defaultK (alloc_obj (stamp nn) w)) with (defaultK w).
  rewrite Hc. reflexivity.
Qed.

Lemma UpdateStatus_configured w c nn f opts :
  client (defaultK w) = Some c ->
  UpdateStatus nn f opts w =
    Ok (err <- client_Get (Some c) nn (next w) ;;
        match err with
        | Some e => ret (Some e)
        | None => f (next w) ;; client_Status_Update (Some c) (next w) opts
        end)
       (alloc_obj (stamp nn) w).
Proof.
  intros Hc. unfold UpdateStatus. rewrite (bind_checkClient_set _ _ _ Hc).
  rewrite new_stamped.
  unfold bind at 1. unfold read_defaultK, komega_UpdateStatus.
  unfold bind at 1. rewrite (key_of_load _ _ _ (objs_alloc_obj _ _)).
  rewrite key_stamp. unfold ret at 1.
  change (defaultK (alloc_obj (stamp nn) w)) with (defaultK w).
  rewrite Hc. reflexivity.
Qed.

(** The probe of [Object] reads [defaultK] in the world it is run in. *)
Lemma Object_configured w c nn :
  client (defaultK w) = Some c ->
  exists probe,
    Object nn w = Ok probe w /\
    forall w',
      probe w' =
        (err <- client_Get (client (defaultK w')) nn (next w') ;;
         ret (next w', err)) (alloc_obj (stamp nn) w').
Proof.
  intros Hc. unfold Object. rewrite (bind_checkClient_set _ _ _ Hc).
  eexists. split; [reflexivity|]. intros w'.
  rewrite new_stamped.
  unfold bind at 1. unfold read_defaultK.
  unfold bind at 1. unfold komega_Get.
  unfold bind at 1. rewrite (key_of_load _ _ _ (objs_alloc_obj _ _)).
  rewrite key_stamp. reflexivity.
Qed.

Lemma ObjectList_configured w c opts :
  client (defaultK w) = Some c ->
  exists probe,
    ObjectList opts w = Ok probe w /\
    forall w',
      probe w' =
        (err <- client_List (client (defaultK w')) (next w') opts ;;
         ret (next w', err)) (alloc_list new_L w').
Proof.
  intros Hc. unfold ObjectList. rewrite (bind_checkClient_set _ _ _ Hc).
  eexists. split; [reflexivity|]. intros w'. reflexivity.
Qed.

(** ** The probes of [Object] and [ObjectList] *)

Lemma heap_ok_fresh w : heap_ok w -> objs w !! next w = None.
Proof.
  intros [Hobjs _]. destruct (objs w !! next w) as [v|] eqn:Hv; [|reflexivity].
  assert (Hs : is_Some (objs w !! next w)) by (rewrite Hv; eauto).
  apply Hobjs in Hs. lia.
Qed.

Lemma heap_ok_init (s : ClientRef -> Store) : heap_ok (init_world s : World).
Proof.
  split; intros obj [x Hx]; simpl in Hx; rewrite lookup_empty in Hx;
    discriminate.
Qed.

Lemma heap_ok_set_defaultK k w : heap_ok w -> heap_ok (set_defaultK k w).
Proof. intros Hok. exact Hok. Qed.

Lemma Object_inv nn w probe w0 :
  Object nn w = Ok probe w0 ->
  forall w',
    probe w' =
      (err <- client_Get (client (defaultK w')) nn (next w') ;;
       ret (next w', err)) (alloc_obj (stamp nn) w').
Proof.
  intros Hobj. destruct (configured_or_unset w) as [[c Hc]|Hc].
  - destruct (Object_configured w c nn Hc) as (probe' & Heq & Hrun).
    rewrite Heq in Hobj. injection Hobj as <- _. exact Hrun.
  - unfold Object in Hobj. rewrite (bind_checkClient_unset _ _ Hc) in Hobj.
    discriminate.
Qed.

Lemma ObjectList_inv opts w probe w0 :
  ObjectList opts w = Ok probe w0 ->
  forall w',
    probe w' =
      (err <- client_List (client (defaultK w')) (next w') opts ;;
       ret (next w', err)) (alloc_list new_L w').
Proof.
  intros Hobj. destruct (configured_or_unset w) as [[c Hc]|Hc].
  - destruct (ObjectList_configured w c opts Hc) as (probe' & Heq & Hrun).
    rewrite Heq in Hobj. injection Hobj as <- _. exact Hrun.
  - unfold ObjectList in Hobj. rewrite (bind_checkClient_unset _ _ Hc) in Hobj.
    discriminate.
Qed.

(** What one invocation of the probe of [Object] does to the world. *)
Lemma Object_probe_run nn w' c' :
  client (defaultK w') = Some c' ->
  (err <- client_Get (client (defaultK w')) nn (next w') ;;
   ret (next w', err)) (alloc_obj (stamp nn) w')
  = Ok (next w', (store_Get nn (stamp nn) (stores w' c')).2)
       (put_store c' (store_Get nn (stamp nn) (stores w' c')).1.1
          (put_obj (next w') (store_Get nn (stamp nn) (stores w' c')).1.2
             (alloc_obj (stamp nn) w'))).
Proof.
  intros Hc. rewrite Hc. unfold bind.
  rewrite (client_Get_run _ _ _ _ _ (objs_alloc_obj _ _)). reflexivity.
Qed.

Lemma ObjectList_probe_run opts w' c' :
  client (defaultK w') = Some c' ->
  (err <- client_List (client (defaultK w')) (next w') opts ;;
   ret (next w', err)) (alloc_list new_L w')
  = Ok (next w', (store_List new_L opts (stores w' c')).2)
       (put_store c' (store_List new_L opts (stores w' c')).1.1
          (put_list (next w') (store_List new_L opts (stores w' c')).1.2
             (alloc_list new_L w'))).
Proof.
  intros Hc. rewrite Hc. unfold bind.
  assert (Hl : lists (alloc_list new_L w') !! next w' = Some new_L)
    by (unfold alloc_list, put_list; simpl; apply lookup_insert_eq).
  rewrite (client_List_run _ _ _ _ _ Hl). reflexivity.
Qed.

(** An invocation that returns hands back the address that [new] gave it,
    moves the allocator past it, and leaves every other instance alone. *)
Lemma Object_probe_returns nn w1 l e w1' :
  (err <- client_Get (client (defaultK w1)) nn (next w1) ;;
   ret (next w1, err)) (alloc_obj (stamp nn) w1) = Ok (l, e) w1' ->
  l = next w1 /\ next w1' = Pos.succ (next w1) /\
  forall obj, obj <> next w1 -> objs w1' !! obj = objs w1 !! obj.
Proof.
  unfold bind.
  destruct (client_Get _ nn (next w1) (alloc_obj (stamp nn) w1)) as [err w2|p] eqn:Hget;
    [|discriminate].
  intros [= <- <- <-].
  apply client_Get_inv in Hget as (c & v & _ & _ & _ & ->).
  repeat split. intros obj Hne.
  unfold put_store, put_obj, alloc_obj. simpl.
  rewrite !lookup_insert_ne by congruence. reflexivity.
Qed.

Lemma ObjectList_probe_returns opts w1 l e w1' :
  (err <- client_List (client (defaultK w1)) (next w1) opts ;;
   ret (next w1, err)) (alloc_list new_L w1) = Ok (l, e) w1' ->
  l = next w1 /\ next w1' = Pos.succ (next w1) /\
  forall obj, obj <> next w1 -> lists w1' !! obj = lists w1 !! obj.
Proof.
  unfold bind.
  destruct (client_List _ (next w1) opts (alloc_list new_L w1)) as [err w2|p] eqn:Hget;
    [|discriminate].
  intros [= <- <- <-].
  apply client_List_inv in Hget as (c & v & _ & _ & _ & ->).
  repeat split. intros obj Hne.
  unfold put_store, put_list, alloc_list. simpl.
  rewrite !lookup_insert_ne by congruence. reflexivity.
Qed.

(** C4: with a client set, [Object(nn)] returns a probe; an invocation in a
    world whose default client is [c'] makes a new instance, stamps [nn] onto
    it, has the store behind [c'] fetch [nn] into it, and returns the pointer
    with the error of the store; the instance did not exist before the
    invocation.  When the store reports an error and leaves the instance as
    it was (an identity that is not there), the probe returns that error and
    the instance holds the zero value with the name and the namespace of [nn]
    set. *)
Theorem Object_probe_fresh_stamped_fetched nn w c :
  client (defaultK w) = Some c ->
  exists probe,
    Object nn w = Ok probe w /\
    forall w' c',
      client (defaultK w') = Some c' ->
      probe w' =
        Ok (next w', (store_Get nn (stamp nn) (stores w' c')).2)
           (put_store c' (store_Get nn (stamp nn) (stores w' c')).1.1
              (put_obj (next w') (store_Get nn (stamp nn) (stores w' c')).1.2
                 (alloc_obj (stamp nn) w'))) /\
      (heap_ok w' -> makes_instance probe w') /\
      forall s e,
        store_Get nn (stamp nn) (stores w' c') = (s, stamp nn, Some e) ->
        exists w'',
          probe w' = Ok (next w', Some e) w'' /\
          objs w'' !! next w' = Some (stamp nn) /\
          GetName (stamp nn) = Name nn /\
          GetNamespace (stamp nn) = Namespace nn.
Proof.
  intros Hc. destruct (Object_configured w c nn Hc) as (probe & Heq & Hrun).
  exists probe. split; [exact Heq|]. intros w' c' Hc'.
  rewrite Hrun, (Object_probe_run nn w' c' Hc'). split; [reflexivity|]. split.
  - intros Hok. eexists _, _. split; [rewrite Hrun; apply (Object_probe_run _ _ _ Hc')|].
    exists (next w'). split; [apply (heap_ok_fresh _ Hok)|].
    unfold put_store, put_obj. simpl. rewrite lookup_insert_eq. eauto.
  - intros s e Hget. rewrite Hget. simpl. eexists. split; [reflexivity|].
    split; [apply lookup_insert_eq|].
    pose proof (key_stamp nn) as Hk. destruct nn as [ns n].
    injection Hk as Hns Hn. auto.
Qed.

(** An invocation of the probe of [Object] that returns: the client that is
    the default, the pointer and the error it returns, the world it leaves. *)
Lemma Object_probe_result nn w1 l e w1' :
  (err <- client_Get (client (defaultK w1)) nn (next w1) ;;
   ret (next w1, err)) (alloc_obj (stamp nn) w1) = Ok (l, e) w1' ->
  exists c1,
    client (defaultK w1) = Some c1 /\
    l = next w1 /\
    objs w1' !! l = Some (store_Get nn (stamp nn) (stores w1 c1)).1.2.
Proof.
  unfold bind.
  destruct (client_Get _ nn (next w1) (alloc_obj (stamp nn) w1)) as [err w2|p] eqn:Hget;
    [|discriminate].
  intros [= <- <- <-].
  apply client_Get_inv in Hget as (c1 & v & Hc1 & Hv & _ & ->).
  rewrite objs_alloc_obj in Hv. injection Hv as <-.
  exists c1. split; [exact Hc1|]. split; [reflexivity|].
  unfold put_store, put_obj. simpl. apply lookup_insert_eq.
Qed.

Lemma ObjectList_probe_result opts w1 l e w1' :
  (err <- client_List (client (defaultK w1)) (next w1) opts ;;
   ret (next w1, err)) (alloc_list new_L w1) = Ok (l, e) w1' ->
  exists c1,
    client (defaultK w1) = Some c1 /\
    l = next w1 /\
    lists w1' !! l = Some (store_List new_L opts (stores w1 c1)).1.2.
Proof.
  unfold bind.
  destruct (client_List _ (next w1) opts (alloc_list new_L w1)) as [err w2|p] eqn:Hget;
    [|discriminate].
  intros [= <- <- <-].
  apply client_List_inv in Hget as (c1 & v & Hc1 & Hv & _ & ->).
  unfold alloc_list, put_list in Hv. simpl in Hv.
  rewrite lookup_insert_eq in Hv. injection Hv as <-.
  exists c1. split; [exact Hc1|]. split; [reflexivity|].
  unfold put_store, put_list. simpl. apply lookup_insert_eq.
Qed.

Lemma heap_ok_fresh_list w : heap_ok w -> lists w !! next w = None.
Proof.
  intros [_ Hlists]. destruct (lists w !! next w) as [l|] eqn:Hl; [|reflexivity].
  assert (Hs : is_Some (lists w !! next w)) by (rewrite Hl; eauto).
  apply Hlists in Hs. lia.
Qed.

(** C5: two invocations of a probe of [Object], the second in a world where
    the allocator has not moved back since the first returned (the world the
    first returned among them).  Each returns a pointer to an instance: the
    instance behind it holds what the store returned at that invocation, and
    in a heap whose addresses in use are below the allocator no instance was
    behind it before.  The two pointers differ, and the second invocation
    leaves the instance of the first as it found it, so that after two
    invocations in a row both instances are there, also when they hold the
    same contents.  Likewise for [ObjectList]. *)
Theorem Object_probes_return_distinct_instances :
  (forall nn w probe w0,
     Object nn w = Ok probe w0 ->
     forall w1 l1 e1 w1' w2 l2 e2 w2',
       probe w1 = Ok (l1, e1) w1' ->
       (next w1' <= next w2)%positive ->
       probe w2 = Ok (l2, e2) w2' ->
       l1 <> l2 /\ objs w2' !! l1 = objs w2 !! l1 /\
       (exists c1,
          client (defaultK w1) = Some c1 /\
          objs w1' !! l1 = Some (store_Get nn (stamp nn) (stores w1 c1)).1.2) /\
       (exists c2,
          client (defaultK w2) = Some c2 /\
          objs w2' !! l2 = Some (store_Get nn (stamp nn) (stores w2 c2)).1.2) /\
       (heap_ok w1 -> objs w1 !! l1 = None) /\
       (heap_ok w2 -> objs w2 !! l2 = None) /\
       (w2 = w1' -> is_Some (objs w2' !! l1) /\ is_Some (objs w2' !! l2))) /\
  (forall opts w probe w0,
     ObjectList opts w = Ok probe w0 ->
     forall w1 l1 e1 w1' w2 l2 e2 w2',
       probe w1 = Ok (l1, e1) w1' ->
       (next w1' <= next w2)%positive ->
       probe w2 = Ok (l2, e2) w2' ->
       l1 <> l2 /\ lists w2' !! l1 = lists w2 !! l1 /\
       (exists c1,
          client (defaultK w1) = Some c1 /\
          lists w1' !! l1 = Some (store_List new_L opts (stores w1 c1)).1.2) /\
       (exists c2,
          client (defaultK w2) = Some c2 /\
          lists w2' !! l2 = Some (store_List new_L opts (stores w2 c2)).1.2) /\
       (heap_ok w1 -> lists w1 !! l1 = None) /\
       (heap_ok w2 -> lists w2 !! l2 = None) /\
       (w2 = w1' -> is_Some (lists w2' !! l1) /\ is_Some (lists w2' !! l2))).
Proof.
  split.
  - intros nn w probe w0 Hobj w1 l1 e1 w1' w2 l2 e2 w2' H1 Hle H2.
    pose proof (Object_inv _ _ _ _ Hobj) as Hrun.
    rewrite Hrun in H1, H2.
    pose proof (Object_probe_result _ _ _ _ _ H1) as (c1 & Hc1 & _ & Hl1).
    pose proof (Object_probe_result _ _ _ _ _ H2) as (c2 & Hc2 & _ & Hl2).
    apply Object_probe_returns in H1 as (-> & Hn1 & _).
    apply Object_probe_returns in H2 as (-> & _ & Hkeep).
    assert (Hne : next w1 <> next w2) by lia.
    split; [exact Hne|]. split; [apply Hkeep, Hne|].
    split; [eauto|]. split; [eauto|].
    split; [apply heap_ok_fresh|]. split; [apply heap_ok_fresh|].
    intros ->. split; [|rewrite Hl2; eauto].
    rewrite (Hkeep _ Hne), Hl1. eauto.
  - intros opts w probe w0 Hobj w1 l1 e1 w1' w2 l2 e2 w2' H1 Hle H2.
    pose proof (ObjectList_inv _ _ _ _ Hobj) as Hrun.
    rewrite Hrun in H1, H2.
    pose proof (ObjectList_probe_result _ _ _ _ _ H1) as (c1 & Hc1 & _ & Hl1).
    pose proof (ObjectList_probe_result _ _ _ _ _ H2) as (c2 & Hc2 & _ & Hl2).
    apply ObjectList_probe_returns in H1 as (-> & Hn1 & _).
    apply ObjectList_probe_returns in H2 as (-> & _ & Hkeep).
    assert (Hne : next w1 <> next w2) by lia.
    split; [exact Hne|]. split; [apply Hkeep, Hne|].
    split; [eauto|]. split; [eauto|].
    split; [apply heap_ok_fresh_list|]. split; [apply heap_ok_fresh_list|].
    intros ->. split; [|rewrite Hl2; eauto].
    rewrite (Hkeep _ Hne), Hl1. eauto.
Qed.

(** ** The probes of [Update] and [UpdateStatus] *)

(** One invocation of an update probe, step by step; [write] is the call that
    writes back. *)
Lemma update_probe_steps (k : option ClientRef) nn obj (updateFunc : Go unit)
    (write : Go (option Err)) w' :
  (err <- client_Get k nn obj ;;
   match err with
   | Some e => ret (Some e)
   | None => updateFunc ;; write
   end) w' =
  match client_Get k nn obj w' with
  | Panic p => Panic p
  | Ok (Some e) w1 => Ok (Some e) w1
  | Ok None w1 =>
    match updateFunc w1 with
    | Panic p => Panic p
    | Ok _ w2 => write w2
    end
  end.
Proof.
  unfold bind. destruct (client_Get k nn obj w') as [[e|] w1|p]; reflexivity.
Qed.

(** C1 (amended): [Update(nn, f, opts...)], with a client [c] set, makes one
    instance, stamps [nn] onto it and returns a probe.  Each invocation has
    the store behind [c] fetch [nn], from the state the store is in at that
    invocation, into that one instance, the same at every invocation.  When
    the fetch returns no error, [f] is run once, on that instance as just
    fetched, the instance is written back and the invocation ends as the
    write does, with its error.  When the fetch returns an error, the
    invocation returns that error.  [UpdateStatus] does the same and writes
    the status. *)
Theorem Update_probe_fetch_apply_write nn f opts w c :
  client (defaultK w) = Some c ->
  (exists probe,
     Update nn f opts w = Ok probe (alloc_obj (stamp nn) w) /\
     forall w' v,
       objs w' !! next w = Some v ->
       let r := store_Get nn v (stores w' c) in
       let w1 := put_store c r.1.1 (put_obj (next w) r.1.2 w') in
       (r.2 = None ->
        probe w' =
          match f (next w) w1 with
          | Panic p => Panic p
          | Ok _ w2 => client_Update (Some c) (next w) opts w2
          end) /\
       (forall e, r.2 = Some e -> exists w'', probe w' = Ok (Some e) w'')) /\
  (exists probe,
     UpdateStatus nn f opts w = Ok probe (alloc_obj (stamp nn) w) /\
     forall w' v,
       objs w' !! next w = Some v ->
       let r := store_Get nn v (stores w' c) in
       let w1 := put_store c r.1.1 (put_obj (next w) r.1.2 w') in
       (r.2 = None ->
        probe w' =
          match f (next w) w1 with
          | Panic p => Panic p
          | Ok _ w2 => client_Status_Update (Some c) (next w) opts w2
          end) /\
       (forall e, r.2 = Some e -> exists w'', probe w' = Ok (Some e) w'')).
Proof.
  intros Hc. split.
  - eexists. split; [apply (Update_configured _ _ _ _ _ Hc)|].
    intros w' v Hv. cbv zeta.
    rewrite update_probe_steps, (client_Get_run _ _ _ _ _ Hv).
    split; [intros ->; reflexivity|intros e ->; eexists; reflexivity].
  - eexists. split; [apply (UpdateStatus_configured _ _ _ _ _ Hc)|].
    intros w' v Hv. cbv zeta.
    rewrite update_probe_steps, (client_Get_run _ _ _ _ _ Hv).
    split; [intros ->; reflexivity|intros e ->; eexists; reflexivity].
Qed.

(** An invocation of an update probe moves the allocator only if the mutator
    does, and leaves an instance behind the pointer of the probe. *)
Lemma update_probe_keeps (k : option ClientRef) nn obj (updateFunc : Go unit)
    (write : Go (option Err)) w' err w'' :
  (forall wa u wb, updateFunc wa = Ok u wb -> next wb = next wa) ->
  (forall wa e wb, write wa = Ok e wb ->
     next wb = next wa /\ is_Some (objs wb !! obj)) ->
  (err <- client_Get k nn obj ;;
   match err with
   | Some e => ret (Some e)
   | None => updateFunc ;; write
   end) w' = Ok err w'' ->
  next w'' = next w' /\ is_Some (objs w'' !! obj).
Proof.
  intros Hf Hwrite. rewrite update_probe_steps.
  destruct (client_Get k nn obj w') as [[e|] w1|p] eqn:Hget; [| |discriminate].
  - intros [= <- <-].
    apply client_Get_inv in Hget as (c & v & _ & _ & _ & ->).
    split; [reflexivity|]. unfold put_store, put_obj. simpl.
    rewrite lookup_insert_eq. eauto.
  - destruct (updateFunc w1) as [u w2|p] eqn:Hmut; [|discriminate].
    intros Hw. apply Hwrite in Hw as [Hn Hsome]. split; [|exact Hsome].
    apply Hf in Hmut.
    apply client_Get_inv in Hget as (c & v & _ & _ & _ & ->).
    rewrite Hn, Hmut. reflexivity.
Qed.

Lemma client_Update_keeps k obj opts wa e wb :
  client_Update k obj opts wa = Ok e wb ->
  next wb = next wa /\ is_Some (objs wb !! obj).
Proof.
  intros Hw. apply client_Update_inv in Hw as (c & v & _ & _ & _ & ->).
  split; [reflexivity|]. unfold put_store, put_obj. simpl.
  rewrite lookup_insert_eq. eauto.
Qed.

Lemma client_Status_Update_keeps k obj opts wa e wb :
  client_Status_Update k obj opts wa = Ok e wb ->
  next wb = next wa /\ is_Some (objs wb !! obj).
Proof.
  intros Hw. apply client_Status_Update_inv in Hw as (c & v & _ & _ & _ & ->).
  split; [reflexivity|]. unfold put_store, put_obj. simpl.
  rewrite lookup_insert_eq. eauto.
Qed.

(** C9: [Update] and [UpdateStatus] make one instance when the probe is
    built, at the address [obj] that [new] hands out in [w], with [nn]
    stamped onto it.  Every invocation of the probe, in whatever world, works
    on that same [obj]: the fetch goes into it, the mutator is handed it, the
    write sends it.  The probe itself makes no instance: if the mutator does
    not allocate, the allocator stands after an invocation where it stood
    before, and the instance is still behind [obj] for the next one. *)
Theorem update_probes_share_one_instance nn f opts w c :
  client (defaultK w) = Some c ->
  let obj := next w in
  (exists probe w1,
     Update nn f opts w = Ok probe w1 /\
     objs w1 !! obj = Some (stamp nn) /\
     next w1 = Pos.succ obj /\
     (forall w',
        probe w' =
          (err <- client_Get (Some c) nn obj ;;
           match err with
           | Some e => ret (Some e)
           | None => f obj ;; client_Update (Some c) obj opts
           end) w') /\
     (forall w' err w'',
        (forall wa u wb, f obj wa = Ok u wb -> next wb = next wa) ->
        probe w' = Ok err w'' ->
        next w'' = next w' /\ is_Some (objs w'' !! obj))) /\
  (exists probe w1,
     UpdateStatus nn f opts w = Ok probe w1 /\
     objs w1 !! obj = Some (stamp nn) /\
     next w1 = Pos.succ obj /\
     (forall w',
        probe w' =
          (err <- client_Get (Some c) nn obj ;;
           match err with
           | Some e => ret (Some e)
           | None => f obj ;; client_Status_Update (Some c) obj opts
           end) w') /\
     (forall w' err w'',
        (forall wa u wb, f obj wa = Ok u wb -> next wb = next wa) ->
        probe w' = Ok err w'' ->
        next w'' = next w' /\ is_Some (objs w'' !! obj))).
Proof.
  intros Hc obj. split.
  - eexists _, _. split; [apply (Update_configured _ _ _ _ _ Hc)|].
    split; [apply objs_alloc_obj|]. split; [reflexivity|].
    split; [reflexivity|]. intros w' err w'' Hf Hrun.
    eapply update_probe_keeps; [exact Hf| |exact Hrun].
    intros wa e wb. apply client_Update_keeps.
  - eexists _, _. split; [apply (UpdateStatus_configured _ _ _ _ _ Hc)|].
    split; [apply objs_alloc_obj|]. split; [reflexivity|].
    split; [reflexivity|]. intros w' err w'' Hf Hrun.
    eapply update_probe_keeps; [exact Hf| |exact Hrun].
    intros wa e wb. apply client_Status_Update_keeps.
Qed.

(** ** The probes of [Get] and [List] *)

Lemma Get_inv obj w probe w0 :
  Get obj w = Ok probe w0 ->
  exists c v,
    client (defaultK w) = Some c /\ objs w !! obj = Some v /\
    probe = client_Get (Some c)
              (mkNamespacedName (GetNamespace v) (GetName v)) obj.
Proof.
  intros Hget. destruct (configured_or_unset w) as [[c Hc]|Hc].
  - destruct (objs w !! obj) as [v|] eqn:Hv.
    + rewrite (Get_configured _ _ _ _ Hc Hv) in Hget.
      injection Hget as <- _. eauto.
    + rewrite (Get_nil _ _ _ Hc Hv) in Hget. discriminate.
  - unfold Get in Hget. rewrite (bind_checkClient_unset _ _ Hc) in Hget.
    discriminate.
Qed.

Lemma List_inv obj opts w probe w0 :
  List obj opts w = Ok probe w0 ->
  exists c, client (defaultK w) = Some c /\ probe = client_List (Some c) obj opts.
Proof.
  intros Hlist. destruct (configured_or_unset w) as [[c Hc]|Hc].
  - rewrite (List_configured _ _ _ _ Hc) in Hlist. injection Hlist as <- _. eauto.
  - unfold List in Hlist. rewrite (bind_checkClient_unset _ _ Hc) in Hlist.
    discriminate.
Qed.

(** ** Every invocation starts from the store *)

(** An update probe with a mutator that assigns in place, run on an instance
    that holds [v']. *)
Lemma update_probe_in_place c nn obj g (write : Go (option Err)) w' v' :
  objs w' !! obj = Some v' ->
  (err <- client_Get (Some c) nn obj ;;
   match err with
   | Some e => ret (Some e)
   | None => in_place g obj ;; write
   end) w' =
  let r := store_Get nn v' (stores w' c) in
  let w1 := put_store c r.1.1 (put_obj obj r.1.2 w') in
  match r.2 with
  | Some e => Ok (Some e) w1
  | None => write (put_obj obj (g r.1.2) w1)
  end.
Proof.
  intros Hv. rewrite update_probe_steps, (client_Get_run _ _ _ _ _ Hv).
  destruct (store_Get nn v' (stores w' c)) as [[s v1] [e|]]; simpl; [reflexivity|].
  unfold in_place, update. simpl. rewrite lookup_insert_eq. reflexivity.
Qed.

(** C3: with a client [c] set, whatever probe is built, an invocation in any
    world [w'] asks the store for its state in [w'] first.  The probes of
    [Get] and [List] do nothing else.  The probes of [Update] and
    [UpdateStatus] hand the mutator (here one that assigns in place) what the
    store has just returned, not what the instance held from an earlier
    invocation, and write the result back; if the fetch fails nothing is
    mutated.  The probes of [Object] and [ObjectList] fetch into an instance
    made at that invocation. *)
Theorem every_invocation_fetches_first w c :
  client (defaultK w) = Some c ->
  (forall obj v,
     objs w !! obj = Some v ->
     exists probe,
       Get obj w = Ok probe w /\
       forall w' v',
         objs w' !! obj = Some v' ->
         let r := store_Get (mkNamespacedName (GetNamespace v) (GetName v)) v'
                    (stores w' c) in
         probe w' = Ok r.2 (put_store c r.1.1 (put_obj obj r.1.2 w'))) /\
  (forall obj opts,
     exists probe,
       List obj opts w = Ok probe w /\
       forall w' l',
         lists w' !! obj = Some l' ->
         let r := store_List l' opts (stores w' c) in
         probe w' = Ok r.2 (put_store c r.1.1 (put_list obj r.1.2 w'))) /\
  (forall nn g opts,
     exists probe w1,
       Update nn (in_place g) opts w = Ok probe w1 /\
       forall w' v',
         objs w' !! next w = Some v' ->
         let r := store_Get nn v' (stores w' c) in
         let w1' := put_store c r.1.1 (put_obj (next w) r.1.2 w') in
         probe w' =
           match r.2 with
           | Some e => Ok (Some e) w1'
           | None =>
             client_Update (Some c) (next w) opts
               (put_obj (next w) (g r.1.2) w1')
           end) /\
  (forall nn g opts,
     exists probe w1,
       UpdateStatus nn (in_place g) opts w = Ok probe w1 /\
       forall w' v',
         objs w' !! next w = Some v' ->
         let r := store_Get nn v' (stores w' c) in
         let w1' := put_store c r.1.1 (put_obj (next w) r.1.2 w') in
         probe w' =
           match r.2 with
           | Some e => Ok (Some e) w1'
           | None =>
             client_Status_Update (Some c) (next w) opts
               (put_obj (next w) (g r.1.2) w1')
           end) /\
  (forall nn,
     exists probe,
       Object nn w = Ok probe w /\
       forall w' c',
         client (defaultK w') = Some c' ->
         let r := store_Get nn (stamp nn) (stores w' c') in
         probe w' =
           Ok (next w', r.2)
              (put_store c' r.1.1
                 (put_obj (next w') r.1.2 (alloc_obj (stamp nn) w')))) /\
  (forall opts,
     exists probe,
       ObjectList opts w = Ok probe w /\
       forall w' c',
         client (defaultK w') = Some c' ->
         let r := store_List new_L opts (stores w' c') in
         probe w' =
           Ok (next w', r.2)
              (put_store c' r.1.1
                 (put_list (next w') r.1.2 (alloc_list new_L w')))).
Proof.
  intros Hc. repeat apply conj.
  - intros obj v Hv. eexists. split; [apply (Get_configured _ _ _ _ Hc Hv)|].
    intros w' v' Hv'. apply (client_Get_run _ _ _ _ _ Hv').
  - intros obj opts. eexists. split; [apply (List_configured _ _ _ _ Hc)|].
    intros w' l' Hl'. apply (client_List_run _ _ _ _ _ Hl').
  - intros nn g opts. eexists _, _.
    split; [apply (Update_configured _ _ _ _ _ Hc)|].
    intros w' v' Hv'. apply (update_probe_in_place _ _ _ _ _ _ _ Hv').
  - intros nn g opts. eexists _, _.
    split; [apply (UpdateStatus_configured _ _ _ _ _ Hc)|].
    intros w' v' Hv'. apply (update_probe_in_place _ _ _ _ _ _ _ Hv').
  - intros nn. destruct (Object_configured w c nn Hc) as (probe & Heq & Hrun).
    exists probe. split; [exact Heq|]. intros w' c' Hc'.
    rewrite Hrun. apply (Object_probe_run _ _ _ Hc').
  - intros opts.
    destruct (ObjectList_configured w c opts Hc) as (probe & Heq & Hrun).
    exists probe. split; [exact Heq|]. intros w' c' Hc'.
    rewrite Hrun. apply (ObjectList_probe_run _ _ _ Hc').
Qed.

(** ** Errors *)

(** The error of an update probe is the error of the fetch, or, after a fetch
    without error, the error of the write. *)
Lemma update_probe_error c nn obj (updateFunc : Go unit) (write : Go (option Err))
    (store_write : V -> Store -> Store * V * option Err) w' err w'' :
  (forall wa e wb, write wa = Ok e wb ->
     exists v, objs wa !! obj = Some v /\ e = (store_write v (stores wa c)).2) ->
  (err <- client_Get (Some c) nn obj ;;
   match err with
   | Some e => ret (Some e)
   | None => updateFunc ;; write
   end) w' = Ok err w'' ->
  exists v,
    objs w' !! obj = Some v /\
    ((exists e, (store_Get nn v (stores w' c)).2 = Some e /\ err = Some e) \/
     ((store_Get nn v (stores w' c)).2 = None /\
      exists u w2 v2,
        updateFunc (put_store c (store_Get nn v (stores w' c)).1.1
                      (put_obj obj (store_Get nn v (stores w' c)).1.2 w'))
          = Ok u w2 /\
        objs w2 !! obj = Some v2 /\
        err = (store_write v2 (stores w2 c)).2)).
Proof.
  intros Hwrite. rewrite update_probe_steps.
  destruct (client_Get (Some c) nn obj w') as [[e|] w1|p] eqn:Hget; [| |discriminate].
  - intros [= <- <-].
    apply client_Get_inv in Hget as (c0 & v & [= <-] & Hv & He & _).
    exists v. split; [exact Hv|]. left. exists e. split; congruence.
  - apply client_Get_inv in Hget as (c0 & v & [= <-] & Hv & He & ->).
    destruct (updateFunc _) as [u w2|p] eqn:Hmut; [|discriminate].
    intros Hw. apply Hwrite in Hw as (v2 & Hv2 & ->).
    exists v. split; [exact Hv|]. right. split; [congruence|].
    exists u, w2, v2. auto.
Qed.

(** A call to the store panics only through a nil interface or a pointer
    that holds no instance. *)
Lemma client_Get_panic k key obj w p :
  client_Get k key obj w = Panic p -> p = NilDereference.
Proof.
  unfold client_Get. destruct k as [c|]; [|congruence].
  destruct (objs w !! obj) as [v|]; [|congruence].
  destruct (store_Get key v (stores w c)) as [[s v'] err]. discriminate.
Qed.

Lemma client_List_panic k obj opts w p :
  client_List k obj opts w = Panic p -> p = NilDereference.
Proof.
  unfold client_List. destruct k as [c|]; [|congruence].
  destruct (lists w !! obj) as [l|]; [|congruence].
  destruct (store_List l opts (stores w c)) as [[s l'] err]. discriminate.
Qed.

Lemma client_Update_panic k obj opts w p :
  client_Update k obj opts w = Panic p -> p = NilDereference.
Proof.
  unfold client_Update. destruct k as [c|]; [|congruence].
  destruct (objs w !! obj) as [v|]; [|congruence].
  destruct (store_Update v opts (stores w c)) as [[s v'] err]. discriminate.
Qed.

Lemma client_Status_Update_panic k obj opts w p :
  client_Status_Update k obj opts w = Panic p -> p = NilDereference.
Proof.
  unfold client_Status_Update. destruct k as [c|]; [|congruence].
  destruct (objs w !! obj) as [v|]; [|congruence].
  destruct (store_Status_Update v opts (stores w c)) as [[s v'] err]. discriminate.
Qed.

(** An invocation of an update probe panics only where a call to the store
    does or where the mutator does. *)
Lemma update_probe_panic (k : option ClientRef) nn obj (updateFunc : Go unit)
    (write : Go (option Err)) w' p :
  (forall wa q, write wa = Panic q -> q = NilDereference) ->
  (err <- client_Get k nn obj ;;
   match err with
   | Some e => ret (Some e)
   | None => updateFunc ;; write
   end) w' = Panic p ->
  p = NilDereference \/ exists w1, updateFunc w1 = Panic p.
Proof.
  intros Hwrite. rewrite update_probe_steps.
  destruct (client_Get k nn obj w') as [[e|] w1|q] eqn:Hget.
  - discriminate.
  - destruct (updateFunc w1) as [u w2|q] eqn:Hmut.
    + intros Hw. left. exact (Hwrite _ _ Hw).
    + intros [= <-]. right. eauto.
  - intros [= <-]. left. exact (client_Get_panic _ _ _ _ _ Hget).
Qed.

Lemma Update_panic nn f opts w p :
  Update nn f opts w = Panic p -> p = client_not_set.
Proof.
  destruct (configured_or_unset w) as [[c Hc]|Hc].
  - rewrite (Update_configured _ _ _ _ _ Hc). discriminate.
  - unfold Update. rewrite (bind_checkClient_unset _ _ Hc). congruence.
Qed.

Lemma UpdateStatus_panic nn f opts w p :
  UpdateStatus nn f opts w = Panic p -> p = client_not_set.
Proof.
  destruct (configured_or_unset w) as [[c Hc]|Hc].
  - rewrite (UpdateStatus_configured _ _ _ _ _ Hc). discriminate.
  - unfold UpdateStatus. rewrite (bind_checkClient_unset _ _ Hc). congruence.
Qed.

Lemma Object_panic nn w p : Object nn w = Panic p -> p = client_not_set.
Proof.
  destruct (configured_or_unset w) as [[c Hc]|Hc].
  - destruct (Object_configured w c nn Hc) as (probe & -> & _). discriminate.
  - unfold Object. rewrite (bind_checkClient_unset _ _ Hc). congruence.
Qed.

Lemma ObjectList_panic opts w p : ObjectList opts w = Panic p -> p = client_not_set.
Proof.
  destruct (configured_or_unset w) as [[c Hc]|Hc].
  - destruct (ObjectList_configured w c opts Hc) as (probe & -> & _). discriminate.
  - unfold ObjectList. rewrite (bind_checkClient_unset _ _ Hc). congruence.
Qed.

Lemma List_panic obj opts w p : List obj opts w = Panic p -> p = client_not_set.
Proof.
  destruct (configured_or_unset w) as [[c Hc]|Hc].
  - rewrite (List_configured _ _ _ _ Hc). discriminate.
  - unfold List. rewrite (bind_checkClient_unset _ _ Hc). congruence.
Qed.

Lemma Get_panic obj w p :
  Get obj w = Panic p ->
  p = client_not_set \/ (p = NilDereference /\ objs w !! obj = None).
Proof.
  destruct (configured_or_unset w) as [[c Hc]|Hc].
  - destruct (objs w !! obj) as [v|] eqn:Hv.
    + rewrite (Get_configured _ _ _ _ Hc Hv). discriminate.
    + rewrite (Get_nil _ _ _ Hc Hv). intros [= <-]. auto.
  - unfold Get. rewrite (bind_checkClient_unset _ _ Hc). intros [= <-]. auto.
Qed.

(** C6: the error that a probe returns is the error value that the store
    returned in that invocation, as it is: for the probes of [Get], [List],
    [Object] and [ObjectList] the one of the fetch; for the probes of [Update]
    and [UpdateStatus] the one of the fetch when it is not nil and else the
    one of the write.  The operations themselves return no error, and the
    only panic that the package raises is the one for a client that is not
    set: apart from it, an operation or an invocation stops only on Go's own
    nil dereference (a pointer that holds no instance, a client that is the
    nil interface) or where the mutator panics. *)
Theorem store_errors_returned_verbatim :
  (forall obj w probe w0,
     Get obj w = Ok probe w0 ->
     exists c key,
       client (defaultK w) = Some c /\
       forall w' err w'',
         probe w' = Ok err w'' ->
         exists v, objs w' !! obj = Some v /\
                   err = (store_Get key v (stores w' c)).2) /\
  (forall obj opts w probe w0,
     List obj opts w = Ok probe w0 ->
     exists c,
       client (defaultK w) = Some c /\
       forall w' err w'',
         probe w' = Ok err w'' ->
         exists l, lists w' !! obj = Some l /\
                   err = (store_List l opts (stores w' c)).2) /\
  (forall nn f opts w probe w0,
     Update nn f opts w = Ok probe w0 ->
     exists c,
       client (defaultK w) = Some c /\
       forall w' err w'',
         probe w' = Ok err w'' ->
         exists v,
           objs w' !! next w = Some v /\
           ((exists e, (store_Get nn v (stores w' c)).2 = Some e /\ err = Some e) \/
            ((store_Get nn v (stores w' c)).2 = None /\
             exists u w2 v2,
               f (next w)
                 (put_store c (store_Get nn v (stores w' c)).1.1
                    (put_obj (next w) (store_Get nn v (stores w' c)).1.2 w'))
                 = Ok u w2 /\
               objs w2 !! next w = Some v2 /\
               err = (store_Update v2 opts (stores w2 c)).2))) /\
  (forall nn f opts w probe w0,
     UpdateStatus nn f opts w = Ok probe w0 ->
     exists c,
       client (defaultK w) = Some c /\
       forall w' err w'',
         probe w' = Ok err w'' ->
         exists v,
           objs w' !! next w = Some v /\
           ((exists e, (store_Get nn v (stores w' c)).2 = Some e /\ err = Some e) \/
            ((store_Get nn v (stores w' c)).2 = None /\
             exists u w2 v2,
               f (next w)
                 (put_store c (store_Get nn v (stores w' c)).1.1
                    (put_obj (next w) (store_Get nn v (stores w' c)).1.2 w'))
                 = Ok u w2 /\
               objs w2 !! next w = Some v2 /\
               err = (store_Status_Update v2 opts (stores w2 c)).2))) /\
  (forall nn w probe w0,
     Object nn w = Ok probe w0 ->
     forall w' l err w'',
       probe w' = Ok (l, err) w'' ->
       exists c',
         client (defaultK w') = Some c' /\
         err = (store_Get nn (stamp nn) (stores w' c')).2) /\
  (forall opts w probe w0,
     ObjectList opts w = Ok probe w0 ->
     forall w' l err w'',
       probe w' = Ok (l, err) w'' ->
       exists c',
         client (defaultK w') = Some c' /\
         err = (store_List new_L opts (stores w' c')).2) /\
  (forall w p,
     (forall obj, Get obj w = Panic p ->
        p = client_not_set \/ (p = NilDereference /\ objs w !! obj = None)) /\
     (forall obj opts, List obj opts w = Panic p -> p = client_not_set) /\
     (forall nn f opts, Update nn f opts w = Panic p -> p = client_not_set) /\
     (forall nn f opts, UpdateStatus nn f opts w = Panic p -> p = client_not_set) /\
     (forall nn, Object nn w = Panic p -> p = client_not_set) /\
     (forall opts, ObjectList opts w = Panic p -> p = client_not_set)) /\
  (forall w probe w0 w' p,
     ((exists obj, Get obj w = Ok probe w0) \/
      (exists obj opts, List obj opts w = Ok probe w0) ->
      probe w' = Panic p -> p = NilDereference) /\
     (forall nn f opts,
        Update nn f opts w = Ok probe w0 \/
        UpdateStatus nn f opts w = Ok probe w0 ->
        probe w' = Panic p ->
        p = NilDereference \/ exists w1, f (next w) w1 = Panic p)) /\
  (forall w probe w0 w' p,
     (exists nn, Object nn w = Ok probe w0) \/
     (exists opts, ObjectList opts w = Ok probe w0) ->
     probe w' = Panic p -> p = NilDereference).
Proof.
  repeat apply conj.
  - intros obj w probe w0 Hget.
    apply Get_inv in Hget as (c & v & Hc & _ & ->).
    exists c, (mkNamespacedName (GetNamespace v) (GetName v)).
    split; [exact Hc|]. intros w' err w'' Hrun.
    apply client_Get_inv in Hrun as (c0 & v' & [= <-] & Hv' & -> & _). eauto.
  - intros obj opts w probe w0 Hlist.
    apply List_inv in Hlist as (c & Hc & ->).
    exists c. split; [exact Hc|]. intros w' err w'' Hrun.
    apply client_List_inv in Hrun as (c0 & l & [= <-] & Hl & -> & _). eauto.
  - intros nn f opts w probe w0 Hupd.
    destruct (configured_or_unset w) as [[c Hc]|Hc];
      [|unfold Update in Hupd; rewrite (bind_checkClient_unset _ _ Hc) in Hupd;
        discriminate].
    rewrite (Update_configured _ _ _ _ _ Hc) in Hupd. injection Hupd as <- _.
    exists c. split; [exact Hc|]. intros w' err w'' Hrun.
    apply (update_probe_error c nn (next w) (f (next w)) _
             (fun v => store_Update v opts)) in Hrun; [exact Hrun|].
    intros wa e wb Hw.
    apply client_Update_inv in Hw as (c0 & v & [= <-] & Hv & -> & _). eauto.
  - intros nn f opts w probe w0 Hupd.
    destruct (configured_or_unset w) as [[c Hc]|Hc];
      [|unfold UpdateStatus in Hupd;
        rewrite (bind_checkClient_unset _ _ Hc) in Hupd; discriminate].
    rewrite (UpdateStatus_configured _ _ _ _ _ Hc) in Hupd. injection Hupd as <- _.
    exists c. split; [exact Hc|]. intros w' err w'' Hrun.
    apply (update_probe_error c nn (next w) (f (next w)) _
             (fun v => store_Status_Update v opts)) in Hrun; [exact Hrun|].
    intros wa e wb Hw.
    apply client_Status_Update_inv in Hw as (c0 & v & [= <-] & Hv & -> & _). eauto.
  - intros nn w probe w0 Hobj w' l err w'' Hrun.
    rewrite (Object_inv _ _ _ _ Hobj) in Hrun. unfold bind in Hrun.
    destruct (client_Get _ nn (next w') _) as [e w2|p] eqn:Hget; [|discriminate].
    injection Hrun as <- <- <-.
    apply client_Get_inv in Hget as (c' & v & Hc' & Hv & -> & _).
    rewrite objs_alloc_obj in Hv. injection Hv as <-. eauto.
  - intros opts w probe w0 Hobj w' l err w'' Hrun.
    rewrite (ObjectList_inv _ _ _ _ Hobj) in Hrun. unfold bind in Hrun.
    destruct (client_List _ (next w') opts _) as [e w2|p] eqn:Hget; [|discriminate].
    injection Hrun as <- <- <-.
    apply client_List_inv in Hget as (c' & v & Hc' & Hv & -> & _).
    unfold alloc_list, put_list in Hv. simpl in Hv.
    rewrite lookup_insert_eq in Hv. injection Hv as <-. eauto.
  - intros w p. repeat apply conj; intros *.
    + apply Get_panic.
    + apply List_panic.
    + apply Update_panic.
    + apply UpdateStatus_panic.
    + apply Object_panic.
    + apply ObjectList_panic.
  - intros w probe w0 w' p. split.
    + intros [[obj Hb]|(obj & opts & Hb)].
      * apply Get_inv in Hb as (c & v & _ & _ & ->). apply client_Get_panic.
      * apply List_inv in Hb as (c & _ & ->). apply client_List_panic.
    + intros nn f opts Hb.
      destruct (configured_or_unset w) as [[c Hc]|Hc].
      * rewrite (Update_configured _ _ _ _ _ Hc),
                (UpdateStatus_configured _ _ _ _ _ Hc) in Hb.
        destruct Hb as [[= <- _]|[= <- _]]; apply update_probe_panic; intros wa q.
        -- apply client_Update_panic.
        -- apply client_Status_Update_panic.
      * unfold Update, UpdateStatus in Hb.
        rewrite !(bind_checkClient_unset _ _ Hc) in Hb.
        destruct Hb; discriminate.
  - intros w probe w0 w' p [[nn Hb]|[opts Hb]].
    + rewrite (Object_inv _ _ _ _ Hb). unfold bind.
      destruct (client_Get _ nn (next w') _) as [e w2|q] eqn:Hget; [discriminate|].
      intros [= <-]. exact (client_Get_panic _ _ _ _ _ Hget).
    + rewrite (ObjectList_inv _ _ _ _ Hb). unfold bind.
      destruct (client_List _ (next w') opts _) as [e w2|q] eqn:Hget; [discriminate|].
      intros [= <-]. exact (client_List_panic _ _ _ _ _ Hget).
Qed.

(** ** Which client a probe calls *)

Lemma SetClient_then {A} k' (m : Go A) w' :
  (SetClient k' ;; m) w' = m (set_defaultK (mkKomega k') w').
Proof. reflexivity. Qed.

(** C8: a probe of [Get] or [List] built while [c] is the default client
    calls the store behind [c] at every invocation, whatever client
    [SetClient] has made the default since (none at all among them).  A probe
    of [Object] or [ObjectList] calls the store behind the client that is the
    default when it is invoked: after [SetClient(c')] that is the store
    behind [c'], and after [SetClient(nil)] the call goes through a nil
    interface. *)
Theorem Get_List_keep_client_Object_ObjectList_read_default w c :
  client (defaultK w) = Some c ->
  (forall obj v,
     objs w !! obj = Some v ->
     exists probe,
       Get obj w = Ok probe w /\
       forall k' w' v',
         objs w' !! obj = Some v' ->
         let r := store_Get (mkNamespacedName (GetNamespace v) (GetName v)) v'
                    (stores w' c) in
         (SetClient k' ;; probe) w' =
           Ok r.2 (put_store c r.1.1
                     (put_obj obj r.1.2 (set_defaultK (mkKomega k') w')))) /\
  (forall obj opts,
     exists probe,
       List obj opts w = Ok probe w /\
       forall k' w' l',
         lists w' !! obj = Some l' ->
         let r := store_List l' opts (stores w' c) in
         (SetClient k' ;; probe) w' =
           Ok r.2 (put_store c r.1.1
                     (put_list obj r.1.2 (set_defaultK (mkKomega k') w')))) /\
  (forall nn,
     exists probe,
       Object nn w = Ok probe w /\
       (forall c' w',
          let r := store_Get nn (stamp nn) (stores w' c') in
          (SetClient (Some c') ;; probe) w' =
            Ok (next w', r.2)
               (put_store c' r.1.1
                  (put_obj (next w') r.1.2
                     (alloc_obj (stamp nn)
                        (set_defaultK (mkKomega (Some c')) w'))))) /\
       (forall w', (SetClient None ;; probe) w' = Panic NilDereference)) /\
  (forall opts,
     exists probe,
       ObjectList opts w = Ok probe w /\
       (forall c' w',
          let r := store_List new_L opts (stores w' c') in
          (SetClient (Some c') ;; probe) w' =
            Ok (next w', r.2)
               (put_store c' r.1.1
                  (put_list (next w') r.1.2
                     (alloc_list new_L
                        (set_defaultK (mkKomega (Some c')) w'))))) /\
       (forall w', (SetClient None ;; probe) w' = Panic NilDereference)).
Proof.
  intros Hc. repeat apply conj.
  - intros obj v Hv. eexists. split; [apply (Get_configured _ _ _ _ Hc Hv)|].
    intros k' w' v' Hv'. rewrite SetClient_then.
    apply (client_Get_run c _ obj (set_defaultK (mkKomega k') w') v' Hv').
  - intros obj opts. eexists. split; [apply (List_configured _ _ _ _ Hc)|].
    intros k' w' l' Hl'. rewrite SetClient_then.
    apply (client_List_run c obj opts (set_defaultK (mkKomega k') w') l' Hl').
  - intros nn. destruct (Object_configured w c nn Hc) as (probe & Heq & Hrun).
    exists probe. split; [exact Heq|]. split.
    + intros c' w'. rewrite SetClient_then, Hrun.
      apply (Object_probe_run nn (set_defaultK (mkKomega (Some c')) w') c').
      reflexivity.
    + intros w'. rewrite SetClient_then, Hrun. reflexivity.
  - intros opts.
    destruct (ObjectList_configured w c opts Hc) as (probe & Heq & Hrun).
    exists probe. split; [exact Heq|]. split.
    + intros c' w'. rewrite SetClient_then, Hrun.
      apply (ObjectList_probe_run opts (set_defaultK (mkKomega (Some c')) w') c').
      reflexivity.
    + intros w'. rewrite SetClient_then, Hrun. reflexivity.
Qed.

(** ** Instances made by an invocation *)

Lemma put_obj_same_instances obj v w o :
  is_Some (objs w !! obj) ->
  is_Some (objs (put_obj obj v w) !! o) -> is_Some (objs w !! o).
Proof.
  intros Hobj. unfold put_obj. simpl.
  destruct (decide (o = obj)) as [->|Hne];
    [auto|rewrite lookup_insert_ne by congruence; auto].
Qed.

(** With a mutator that assigns in place, an invocation of an update probe
    leaves the heap with the instances it had. *)
Lemma in_place_probe_same_instances c nn obj g (write : Go (option Err)) w' err w'' :
  (forall wa e wb, write wa = Ok e wb ->
     forall o, is_Some (objs wb !! o) -> is_Some (objs wa !! o)) ->
  (err <- client_Get (Some c) nn obj ;;
   match err with
   | Some e => ret (Some e)
   | None => in_place g obj ;; write
   end) w' = Ok err w'' ->
  forall o, is_Some (objs w'' !! o) -> is_Some (objs w' !! o).
Proof.
  intros Hwrite.
  destruct (objs w' !! obj) as [v'|] eqn:Hv';
    [|unfold bind, client_Get; rewrite Hv'; discriminate].
  rewrite (update_probe_in_place _ _ _ _ _ _ _ Hv'). cbv zeta.
  assert (Hobj : is_Some (objs w' !! obj)) by eauto.
  destruct (store_Get nn v' (stores w' c)) as [[s v1] [e|]]; simpl.
  - intros [= <- <-] o.
    change (objs (put_store c s (put_obj obj v1 w')))
      with (objs (put_obj obj v1 w')).
    apply put_obj_same_instances, Hobj.
  - intros Hw o Ho. apply (Hwrite _ _ _ Hw) in Ho.
    apply put_obj_same_instances in Ho.
    + revert Ho.
      change (objs (put_store c s (put_obj obj v1 w')))
        with (objs (put_obj obj v1 w')).
      apply put_obj_same_instances, Hobj.
    + unfold put_store, put_obj. simpl. rewrite lookup_insert_eq. eauto.
Qed.

Lemma client_Update_same_instances k obj opts wa e wb :
  client_Update k obj opts wa = Ok e wb ->
  forall o, is_Some (objs wb !! o) -> is_Some (objs wa !! o).
Proof.
  intros Hw o. apply client_Update_inv in Hw as (c & v & _ & Hv & _ & ->).
  unfold put_store, put_obj. simpl.
  destruct (decide (o = obj)) as [->|Hne];
    [rewrite Hv; eauto|rewrite lookup_insert_ne by congruence; auto].
Qed.

End Properties.

(** * The test and concrete runs *)

(** The store of the test holds one resource for a name in a namespace, so
    looking up a resource that it holds finds that resource. *)
Lemma fake_lookup_elem_of (s : fake.Store) (d : Deployment) :
  NoDup (fake.key_of <$> s) -> d ∈ s -> fake.lookup (fake.key_of d) s = Some d.
Proof.
  induction s as [|a s IH]; intros Hnd Hin; [inversion Hin|].
  rewrite fmap_cons in Hnd. apply NoDup_cons in Hnd as [Hnotin Hnd].
  unfold fake.lookup. simpl. unfold fake.named at 1.
  apply elem_of_cons in Hin as [->|Hin].
  - rewrite bool_decide_eq_true_2 by reflexivity. reflexivity.
  - rewrite bool_decide_eq_false_2.
    + apply IH; assumption.
    + intros Heq. apply Hnotin. rewrite Heq. apply list_elem_of_fmap_2, Hin.
Qed.

(** What the fake client answers when asked for a resource that it holds. *)
Lemma fake_Get_held (s : fake.Store) (d v : Deployment) :
  NoDup (fake.key_of <$> s) -> d ∈ s ->
  store_Get (fake.key_of d) v s = (s, d, None).
Proof.
  intros Hnd Hin. simpl. unfold fake.Get.
  rewrite (fake_lookup_elem_of s d Hnd Hin). reflexivity.
Qed.

(** C7: let the store behind a client hold a resource [d] named [nn] whose
    replica count is [n] (in the test: "test" in "default" with 5 replicas),
    whatever else the store holds and whatever the state of the process is.
    Once [SetClient] has set that client, the probe of [Object(nn)], as in the
    test, returns a nil error and a pointer to an instance that is [d], so
    its [Spec.Replicas] is [n]; and the probe of [Get] on an instance that
    the caller has given the name and the namespace of [nn] returns a nil
    error and leaves [d] in that instance. *)
Theorem fetch_probes_return_the_stored_replicas
    (w : @World Deployment DeploymentList fake.Store) (c : ClientRef)
    (nn : NamespacedName) (d : Deployment) (n : Z) :
  NoDup (fake.key_of <$> stores w c) ->
  d ∈ stores w c ->
  fake.key_of d = nn ->
  Spec_Replicas d = Some n ->
  (exists probe w1,
     (SetClient (Some c) ;; Object nn) w = Ok probe w1 /\
     exists obj w',
       probe w1 = Ok (obj, None) w' /\
       objs w' !! obj = Some d /\
       Spec_Replicas <$> objs w' !! obj = Some (Some n)) /\
  (forall obj v,
     objs w !! obj = Some v ->
     GetName v = Name nn ->
     GetNamespace v = Namespace nn ->
     exists probe w1,
       (SetClient (Some c) ;; Get obj) w = Ok probe w1 /\
       exists w',
         probe w1 = Ok None w' /\
         objs w' !! obj = Some d /\
         Spec_Replicas <$> objs w' !! obj = Some (Some n)).
Proof.
  intros Hnd Hin <- Hn.
  pose proof (fun v => fake_Get_held (stores w c) d v Hnd Hin) as Hget.
  split.
  - rewrite SetClient_then.
    destruct (Object_configured (set_defaultK (mkKomega (Some c)) w) c
                (fake.key_of d) eq_refl) as (probe & Hbuild & Hrun).
    exists probe, (set_defaultK (mkKomega (Some c)) w). split; [exact Hbuild|].
    rewrite Hrun,
      (Object_probe_run (fake.key_of d) (set_defaultK (mkKomega (Some c)) w) c
         eq_refl).
    change (stores (set_defaultK (mkKomega (Some c)) w) c) with (stores w c).
    rewrite Hget. eexists _, _. split; [reflexivity|].
    simpl. split; [apply lookup_insert_eq|].
    rewrite lookup_insert_eq. simpl. rewrite Hn. reflexivity.
  - intros obj v Hv Hname Hns. rewrite SetClient_then.
    exists (client_Get (Some c) (fake.key_of d) obj),
           (set_defaultK (mkKomega (Some c)) w).
    split.
    + rewrite (Get_configured (set_defaultK (mkKomega (Some c)) w) c obj v
                 eq_refl Hv).
      rewrite Hname, Hns. destruct d; reflexivity.
    + rewrite (client_Get_run c _ obj (set_defaultK (mkKomega (Some c)) w) v Hv).
      change (stores (set_defaultK (mkKomega (Some c)) w) c) with (stores w c).
      rewrite Hget. eexists. split; [reflexivity|].
      simpl. split; [apply lookup_insert_eq|].
      rewrite lookup_insert_eq. simpl. rewrite Hn. reflexivity.
Qed.

(** C7, in the test: the fake client holds "test" in "default" with 5
    replicas, and both probes return an instance with 5 replicas and a nil
    error. *)
Lemma TestDefaultObject_replicas_5 :
  match TestDefaultObject with
  | Ok (obj, None) w' => Spec_Replicas <$> objs w' !! obj = Some (Some 5%Z)
  | _ => False
  end /\
  match TestDefaultGet with
  | Ok (obj, None) w' => Spec_Replicas <$> objs w' !! obj = Some (Some 5%Z)
  | _ => False
  end.
Proof.
  assert (Hnd : NoDup (fake.key_of <$> fake.createFakeClient))
    by apply NoDup_singleton.
  assert (Hin : fake.exampleDeployment ∈ fake.createFakeClient)
    by apply list_elem_of_here.
  split.
  - destruct (fetch_probes_return_the_stored_replicas test_world fc test_nn
                fake.exampleDeployment 5 Hnd Hin eq_refl eq_refl)
      as [(probe & w1 & Hbuild & obj & w' & Hrun & _ & Hreplicas) _].
    change TestDefaultObject
      with (match (SetClient (Some fc) ;; Object test_nn) test_world with
            | Ok probe w1 => probe w1
            | Panic p => Panic p
            end).
    rewrite Hbuild, Hrun. exact Hreplicas.
  - destruct (fetch_probes_return_the_stored_replicas
                (alloc_obj (stamp test_nn) test_world) fc test_nn
                fake.exampleDeployment 5 Hnd Hin eq_refl eq_refl)
      as [_ HGet].
    destruct (HGet 1 (stamp test_nn) eq_refl eq_refl eq_refl)
      as (probe & w1 & Hbuild & w' & Hrun & _ & Hreplicas).
    change TestDefaultGet
      with (match (SetClient (Some fc) ;; Get 1)
                    (alloc_obj (stamp test_nn) test_world) with
            | Ok probe w1 =>
              match probe w1 with
              | Ok err w' => Ok (1, err) w'
              | Panic p => Panic p
              end
            | Panic p => Panic p
            end).
    rewrite Hbuild, Hrun. exact Hreplicas.
Defined.

(** C2, at the start of the process. *)
Lemma unconfigured_panics_at_start :
  client (defaultK test_world) = None /\
  Get 1 test_world = Panic client_not_set /\
  Object test_nn test_world = Panic client_not_set.
Proof.
  split; [reflexivity|].
  destruct (unconfigured_panics test_world eq_refl) as (HGet & _ & _ & _ & HObject & _).
  split; [apply HGet|apply HObject].
Defined.

(** C1 as stated fails: [Update] with a mutator that assigns in place, in the
    process of the test.  The probe is invoked and returns without error, and
    no instance exists afterwards that did not exist before the invocation:
    the fetch went into the instance that [Update] had made when it built
    the probe, not into a fresh one. *)
Lemma Update_probe_makes_no_instance :
  exists probe w1,
    (SetClient (Some fc) ;; Update test_nn (in_place incr_replicas) [])
      test_world = Ok probe w1 /\
    (exists w2, probe w1 = Ok None w2) /\
    ~ makes_instance probe w1.
Proof.
  eexists _, _. split.
  { rewrite SetClient_then. apply (Update_configured _ fc). reflexivity. }
  split.
  { eexists. vm_compute. reflexivity. }
  intros (err & w2 & Hrun & obj & Hnone & Hsome).
  apply in_place_probe_same_instances with (o := obj) in Hrun.
  - rewrite Hnone in Hrun. destruct Hrun as [? [=]].
  - intros wa e wb. apply client_Update_same_instances.
  - exact Hsome.
Qed.

(** C1 (amended), in the process of the test: the probe is built around the
    instance at address 1 and an invocation fetches, increments and writes
    back. *)
Lemma Update_probe_fetch_apply_write_test :
  client (defaultK configured_world) = Some fc /\
  exists probe,
    Update test_nn (in_place incr_replicas) [] configured_world
      = Ok probe world_with_deployment /\
    match probe world_with_deployment with
    | Ok None w' =>
      Spec_Replicas <$> objs w' !! 1 = Some (Some 6%Z) /\
      Spec_Replicas <$> fake.lookup test_nn (stores w' fc) = Some (Some 6%Z)
    | _ => False
    end.
Proof.
  split; [reflexivity|].
  destruct (Update_probe_fetch_apply_write test_nn (in_place incr_replicas) []
              configured_world fc eq_refl) as [(probe & Hbuild & Hrun) _].
  exists probe. split; [exact Hbuild|].
  destruct (Hrun world_with_deployment (stamp test_nn) eq_refl) as [Hfetched _].
  cbv zeta in Hfetched. rewrite (Hfetched eq_refl).
  vm_compute. split; reflexivity.
Defined.

(** C4, for an identity that the store does not hold. *)
Lemma Object_probe_not_found :
  client (defaultK configured_world) = Some fc /\
  exists probe,
    Object missing_nn configured_world = Ok probe configured_world /\
    makes_instance probe configured_world /\
    exists w'',
      probe configured_world = Ok (1, Some (fake.NotFound missing_nn)) w'' /\
      objs w'' !! 1 = Some (mkDeployment "default" "missing" None 0).
Proof.
  split; [reflexivity|].
  destruct (Object_probe_fresh_stamped_fetched missing_nn configured_world
              fc eq_refl) as (probe & Hbuild & Hrun).
  exists probe. split; [exact Hbuild|].
  destruct (Hrun configured_world fc eq_refl) as (_ & Hfresh & Hmissing).
  split; [apply Hfresh, heap_ok_set_defaultK, heap_ok_init|].
  destruct (Hmissing (stores configured_world fc) (fake.NotFound missing_nn) eq_refl)
    as (w'' & Hret & Hobj & _).
  exists w''. split; [exact Hret|exact Hobj].
Defined.

(** C5, for two invocations in a row that fetch the same contents: two
    instances at the addresses 1 and 2, both there at the end. *)
Lemma Object_probe_twice :
  exists probe w1 w2,
    Object test_nn configured_world = Ok probe configured_world /\
    probe configured_world = Ok (1, None) w1 /\
    probe w1 = Ok (2, None) w2 /\
    objs w2 !! 1 = Some fake.exampleDeployment /\
    objs w2 !! 2 = Some fake.exampleDeployment /\
    1 <> 2 /\ is_Some (objs w2 !! 1) /\ is_Some (objs w2 !! 2).
Proof.
  destruct (Object_configured configured_world fc test_nn eq_refl)
    as (probe & Hbuild & Hrun).
  pose (w1 := put_store fc fake.createFakeClient
                (put_obj 1 fake.exampleDeployment
                   (alloc_obj (stamp test_nn) configured_world))).
  pose (w2 := put_store fc fake.createFakeClient
                (put_obj 2 fake.exampleDeployment
                   (alloc_obj (stamp test_nn) w1))).
  assert (H1 : probe configured_world = Ok (1, None) w1)
    by (rewrite Hrun; reflexivity).
  assert (H2 : probe w1 = Ok (2, None) w2) by (rewrite Hrun; reflexivity).
  exists probe, w1, w2.
  split; [exact Hbuild|]. split; [exact H1|]. split; [exact H2|].
  split; [reflexivity|]. split; [reflexivity|].
  destruct (proj1 Object_probes_return_distinct_instances test_nn configured_world
              probe configured_world Hbuild configured_world 1 None w1 w1 2 None w2
              H1 (Pos.le_refl _) H2)
    as (Hne & _ & _ & _ & _ & _ & Hboth).
  split; [exact Hne|]. apply Hboth. reflexivity.
Defined.

(** C3, for the probe of [Get] on the instance that the caller made: the
    invocation copies what the store holds. *)
Lemma Get_probe_fetches_test :
  client (defaultK world_with_deployment) = Some fc /\
  exists probe,
    Get 1 world_with_deployment = Ok probe world_with_deployment /\
    match probe world_with_deployment with
    | Ok None w' => Spec_Replicas <$> objs w' !! 1 = Some (Some 5%Z)
    | _ => False
    end.
Proof.
  split; [reflexivity|].
  destruct (every_invocation_fetches_first world_with_deployment fc eq_refl)
    as (HGet & _).
  destruct (HGet 1 (stamp test_nn) eq_refl) as (probe & Hbuild & Hrun).
  exists probe. split; [exact Hbuild|].
  rewrite_run (Hrun world_with_deployment (stamp test_nn) eq_refl).
  vm_compute. reflexivity.
Defined.

(** C6, for an identity that the store does not hold: the error of the probe
    is the one that the store made. *)
Lemma Object_probe_error_test :
  exists probe w'',
    Object missing_nn configured_world = Ok probe configured_world /\
    probe configured_world = Ok (1, Some (fake.NotFound missing_nn)) w'' /\
    exists c',
      client (defaultK configured_world) = Some c' /\
      Some (fake.NotFound missing_nn) =
        (fake.Get missing_nn (stamp missing_nn) (stores configured_world c')).2.
Proof.
  destruct (@store_errors_returned_verbatim Deployment DeploymentList fake.Store
              fake.Err fake.UpdateOption fake.ListOption _ _ _)
    as (_ & _ & _ & _ & HObject & _).
  eexists _, _. split; [reflexivity|]. split; [vm_compute; reflexivity|].
  eapply (HObject missing_nn configured_world _ _ eq_refl configured_world 1).
  vm_compute. reflexivity.
Defined.

(** C8, with two stores that hold the resource of the test with 5 and with 7
    replicas: the probes are built while client 0 is the default and invoked
    after [SetClient] has made client 1 the default.  The probe of [Get]
    reads 5, the probe of [Object] reads 7. *)
Lemma SetClient_between_build_and_invocation :
  client (defaultK world_with_deployment) = Some fc /\
  (exists probe,
     Get 1 world_with_deployment = Ok probe world_with_deployment /\
     match (SetClient (Some other_client) ;; probe) world_with_deployment with
     | Ok None w' => Spec_Replicas <$> objs w' !! 1 = Some (Some 5%Z)
     | _ => False
     end) /\
  (exists probe,
     Object test_nn world_with_deployment = Ok probe world_with_deployment /\
     match (SetClient (Some other_client) ;; probe) world_with_deployment with
     | Ok (obj, None) w' => Spec_Replicas <$> objs w' !! obj = Some (Some 7%Z)
     | _ => False
     end).
Proof.
  split; [reflexivity|].
  destruct (Get_List_keep_client_Object_ObjectList_read_default
              world_with_deployment fc eq_refl) as (HGet & _ & HObject & _).
  split.
  - destruct (HGet 1 (stamp test_nn) eq_refl) as (probe & Hbuild & Hrun).
    exists probe. split; [exact Hbuild|].
    rewrite_run (Hrun (Some other_client) world_with_deployment (stamp test_nn) eq_refl).
    vm_compute. reflexivity.
  - destruct (HObject test_nn) as (probe & Hbuild & Hrun & _).
    exists probe. split; [exact Hbuild|].
    rewrite_run (Hrun other_client world_with_deployment).
    vm_compute. reflexivity.
Defined.

(** C9, in the process of the test: the probe is built around the instance at
    address 1; two invocations in a row work on it, the second on what the
    first has left, and the allocator stays at 2. *)
Lemma Update_probe_twice :
  client (defaultK configured_world) = Some fc /\
  exists probe w1 w2 w3,
    Update test_nn (in_place incr_replicas) [] configured_world = Ok probe w1 /\
    probe world_with_deployment = Ok None w2 /\
    probe w2 = Ok None w3 /\
    Spec_Replicas <$> objs w2 !! 1 = Some (Some 6%Z) /\
    Spec_Replicas <$> objs w3 !! 1 = Some (Some 7%Z) /\
    (next w3 = next w2 /\ is_Some (objs w3 !! 1)).
Proof.
  split; [reflexivity|].
  destruct (update_probes_share_one_instance test_nn (in_place incr_replicas) []
              configured_world fc eq_refl)
    as [(probe & w1 & Hbuild & _ & _ & Hrun & Hkeep) _].
  exists probe, w1. eexists _, _. split; [exact Hbuild|].
  split; [rewrite Hrun; vm_compute; reflexivity|].
  split; [rewrite Hrun; vm_compute; reflexivity|].
  split; [vm_compute; reflexivity|]. split; [vm_compute; reflexivity|].
  eapply Hkeep.
  - intros wa u wb. unfold in_place, update.
    destruct (objs wa !! next configured_world); [|discriminate].
    intros [= <- <-]. reflexivity.
  - rewrite Hrun. vm_compute. reflexivity.
Defined.

(** * Further properties of the operations *)

Section Operations.

Context {V L Store Err UpdateOption ListOption : Type}.
Context `{!Obj V, !ObjList L, !Client Store V L Err UpdateOption ListOption}.

Local Abbreviation World := (@World V L Store).
Local Abbreviation Go := (M World).

Implicit Types (w : World) (obj : loc) (nn : NamespacedName) (c : ClientRef).
Implicit Types (g : V -> V) (wa wb : World).

(** ** When an operation returns *)

(** [checkClient] is the only gate of the six operations, and building a
    probe is all they do.  [List], [Update], [UpdateStatus], [Object] and
    [ObjectList] return exactly when a client is set; [Get] also reads the
    name of the instance, so its pointer has to hold one.  [Get], [List],
    [Object] and [ObjectList] leave the process as it was: no call to the
    store is made and nothing is allocated.  [Update] and [UpdateStatus]
    leave it with the one stamped instance, whatever the mutator is: the
    mutator is not run. *)
Theorem operations_return_iff_client_set w :
  (forall obj,
     (exists probe, Get obj w = Ok probe w) <->
     is_Some (client (defaultK w)) /\ is_Some (objs w !! obj)) /\
  (forall obj opts,
     (exists probe, List obj opts w = Ok probe w) <->
     is_Some (client (defaultK w))) /\
  (forall nn f opts,
     (exists probe, Update nn f opts w = Ok probe (alloc_obj (stamp nn) w)) <->
     is_Some (client (defaultK w))) /\
  (forall nn f opts,
     (exists probe, UpdateStatus nn f opts w = Ok probe (alloc_obj (stamp nn) w)) <->
     is_Some (client (defaultK w))) /\
  (forall nn,
     (exists probe, Object nn w = Ok probe w) <-> is_Some (client (defaultK w))) /\
  (forall opts,
     (exists probe, ObjectList opts w = Ok probe w) <->
     is_Some (client (defaultK w))).
Proof.
  destruct (configured_or_unset w) as [[c Hc]|Hc].
  - assert (Hset : is_Some (client (defaultK w))) by (rewrite Hc; eauto).
    repeat apply conj; intros *; (split; [intros [probe Hb]|intros Hs]).
    + split; [exact Hset|]. apply Get_inv in Hb as (_ & v & _ & -> & _). eauto.
    + destruct Hs as [_ [v Hv]]. eexists. apply (Get_configured _ _ _ _ Hc Hv).
    + exact Hset.
    + eexists. apply (List_configured _ _ _ _ Hc).
    + exact Hset.
    + eexists. apply (Update_configured _ _ _ _ _ Hc).
    + exact Hset.
    + eexists. apply (UpdateStatus_configured _ _ _ _ _ Hc).
    + exact Hset.
    + destruct (Object_configured w c nn Hc) as (probe & Hb & _). eauto.
    + exact Hset.
    + destruct (ObjectList_configured w c opts Hc) as (probe & Hb & _). eauto.
  - assert (Hunset : ~ is_Some (client (defaultK w)))
      by (rewrite Hc; intros [? [=]]).
    repeat apply conj; intros *; (split; [intros [probe Hb]|intros Hs]);
      try (exfalso; apply Hunset; first [exact Hs|exact (proj1 Hs)]).
    + unfold Get in Hb. rewrite (bind_checkClient_unset _ _ Hc) in Hb. discriminate.
    + unfold List in Hb. rewrite (bind_checkClient_unset _ _ Hc) in Hb. discriminate.
    + unfold Update in Hb. rewrite (bind_checkClient_unset _ _ Hc) in Hb. discriminate.
    + unfold UpdateStatus in Hb. rewrite (bind_checkClient_unset _ _ Hc) in Hb.
      discriminate.
    + unfold Object in Hb. rewrite (bind_checkClient_unset _ _ Hc) in Hb. discriminate.
    + unfold ObjectList in Hb. rewrite (bind_checkClient_unset _ _ Hc) in Hb.
      discriminate.
Qed.

(** ** [SetClient] and the update probes *)

(** Code that does not read [defaultK] can trade places with [SetClient]. *)
Lemma SetClient_bind {A B} (m : Go A) (k : A -> Go B) :
  (forall k' wa,
     m (set_defaultK (mkKomega k') wa) = (a <- m ;; SetClient k' ;; ret a) wa) ->
  (forall a k' wa,
     k a (set_defaultK (mkKomega k') wa) = (b <- k a ;; SetClient k' ;; ret b) wa) ->
  forall k' wa,
    (a <- m ;; k a) (set_defaultK (mkKomega k') wa) =
    (b <- (a <- m ;; k a) ;; SetClient k' ;; ret b) wa.
Proof.
  intros Hm Hk k' wa. unfold bind at 1. rewrite Hm.
  cbv beta iota delta [bind]. destruct (m wa) as [a w1|p]; [|reflexivity].
  cbv beta iota delta [SetClient ret]. rewrite Hk. reflexivity.
Qed.

Lemma SetClient_client_Get c key obj k' wa :
  client_Get (Some c) key obj (set_defaultK (mkKomega k') wa) =
  (err <- client_Get (Some c) key obj ;; SetClient k' ;; ret err) wa.
Proof.
  unfold bind, client_Get. simpl. destruct (objs wa !! obj) as [v|]; [|reflexivity].
  destruct (store_Get key v (stores wa c)) as [[s v'] err]. reflexivity.
Qed.

Lemma SetClient_client_Update c obj opts k' wa :
  client_Update (Some c) obj opts (set_defaultK (mkKomega k') wa) =
  (err <- client_Update (Some c) obj opts ;; SetClient k' ;; ret err) wa.
Proof.
  unfold bind, client_Update. simpl. destruct (objs wa !! obj) as [v|]; [|reflexivity].
  destruct (store_Update v opts (stores wa c)) as [[s v'] err]. reflexivity.
Qed.

Lemma SetClient_client_Status_Update c obj opts k' wa :
  client_Status_Update (Some c) obj opts (set_defaultK (mkKomega k') wa) =
  (err <- client_Status_Update (Some c) obj opts ;; SetClient k' ;; ret err) wa.
Proof.
  unfold bind, client_Status_Update. simpl.
  destruct (objs wa !! obj) as [v|]; [|reflexivity].
  destruct (store_Status_Update v opts (stores wa c)) as [[s v'] err]. reflexivity.
Qed.

Lemma SetClient_in_place g obj k' wa :
  in_place g obj (set_defaultK (mkKomega k') wa) =
  (u <- in_place g obj ;; SetClient k' ;; ret u) wa.
Proof.
  unfold bind, in_place, update. simpl.
  destruct (objs wa !! obj) as [v|]; reflexivity.
Qed.

Lemma SetClient_update_probe c nn obj g (write : Go (option Err)) :
  (forall k' wa,
     write (set_defaultK (mkKomega k') wa) =
     (err <- write ;; SetClient k' ;; ret err) wa) ->
  forall k' w',
    (SetClient k' ;;
     err <- client_Get (Some c) nn obj ;;
     match err with
     | Some e => ret (Some e)
     | None => in_place g obj ;; write
     end) w' =
    (err <- (err <- client_Get (Some c) nn obj ;;
             match err with
             | Some e => ret (Some e)
             | None => in_place g obj ;; write
             end) ;;
     SetClient k' ;; ret err) w'.
Proof.
  intros Hwrite k' w'. rewrite SetClient_then.
  apply (SetClient_bind (client_Get (Some c) nn obj)).
  - intros. apply SetClient_client_Get.
  - intros [e|] k0 wa; [reflexivity|].
    apply (SetClient_bind (in_place g obj) (fun _ => write)).
    + intros. apply SetClient_in_place.
    + intros _. exact Hwrite.
Qed.

(** A probe of [Update] or [UpdateStatus] keeps the client that was the
    default when it was built.  With a mutator that assigns in place,
    [SetClient] before an invocation, with any client or with nil, has the
    effect of [SetClient] after it: the invocation reads and writes the same
    store, returns the same error and leaves the same instance. *)
Theorem update_probes_keep_their_client nn g opts w c :
  client (defaultK w) = Some c ->
  (exists probe w1,
     Update nn (in_place g) opts w = Ok probe w1 /\
     forall k' w',
       (SetClient k' ;; probe) w' = (err <- probe ;; SetClient k' ;; ret err) w') /\
  (exists probe w1,
     UpdateStatus nn (in_place g) opts w = Ok probe w1 /\
     forall k' w',
       (SetClient k' ;; probe) w' = (err <- probe ;; SetClient k' ;; ret err) w').
Proof.
  intros Hc. split.
  - eexists _, _. split; [apply (Update_configured _ _ _ _ _ Hc)|].
    apply SetClient_update_probe. intros. apply SetClient_client_Update.
  - eexists _, _. split; [apply (UpdateStatus_configured _ _ _ _ _ Hc)|].
    apply SetClient_update_probe. intros. apply SetClient_client_Status_Update.
Qed.

(** ** What an invocation leaves alone *)

Ltac frame :=
  unfold same_but_obj, same_but_list, put_store, put_obj, put_list,
    alloc_obj, alloc_list;
  simpl; repeat split; intros;
  rewrite ?lookup_insert_ne, ?fn_lookup_insert_ne by congruence;
  reflexivity.

Lemma same_but_obj_trans obj c w1 w2 w3 :
  same_but_obj obj c w1 w2 -> same_but_obj obj c w2 w3 -> same_but_obj obj c w1 w3.
Proof.
  intros (Hk1 & Hl1 & Ho1 & Hs1) (Hk2 & Hl2 & Ho2 & Hs2).
  repeat split; [congruence|congruence| |].
  - intros o Hne. rewrite (Ho2 o Hne). apply (Ho1 o Hne).
  - intros c' Hne. rewrite (Hs2 c' Hne). apply (Hs1 c' Hne).
Qed.

(** One invocation of an update probe with a mutator that assigns in place,
    on a pointer that holds an instance: it returns, and only that instance
    and the store of the probe have changed. *)
Lemma update_probe_in_place_returns c nn obj g (write : Go (option Err))
    (store_write : V -> Store -> Store * V * option Err) w' :
  (forall wa v,
     objs wa !! obj = Some v ->
     write wa =
       Ok (store_write v (stores wa c)).2
          (put_store c (store_write v (stores wa c)).1.1
             (put_obj obj (store_write v (stores wa c)).1.2 wa))) ->
  is_Some (objs w' !! obj) ->
  exists err w'',
    (err <- client_Get (Some c) nn obj ;;
     match err with
     | Some e => ret (Some e)
     | None => in_place g obj ;; write
     end) w' = Ok err w'' /\
    same_but_obj obj c w' w'' /\
    next w'' = next w' /\
    is_Some (objs w'' !! obj).
Proof.
  intros Hwrite [v' Hv']. rewrite (update_probe_in_place _ _ _ _ _ _ _ Hv').
  cbv zeta. destruct (store_Get nn v' (stores w' c)) as [[s v1] [e|]]; simpl.
  - eexists _, _. split; [reflexivity|]. split; [frame|]. split; [reflexivity|].
    unfold put_store, put_obj. simpl. rewrite lookup_insert_eq. eauto.
  - rewrite (Hwrite _ (g v1))
      by (unfold put_store, put_obj; simpl; apply lookup_insert_eq).
    eexists _, _. split; [reflexivity|]. split; [frame|]. split; [reflexivity|].
    unfold put_store, put_obj. simpl. rewrite lookup_insert_eq. eauto.
Qed.

Lemma update_probe_in_place_frame c nn obj g (write : Go (option Err))
    (store_write : V -> Store -> Store * V * option Err) w' err w'' :
  (forall wa v,
     objs wa !! obj = Some v ->
     write wa =
       Ok (store_write v (stores wa c)).2
          (put_store c (store_write v (stores wa c)).1.1
             (put_obj obj (store_write v (stores wa c)).1.2 wa))) ->
  (err <- client_Get (Some c) nn obj ;;
   match err with
   | Some e => ret (Some e)
   | None => in_place g obj ;; write
   end) w' = Ok err w'' ->
  same_but_obj obj c w' w'' /\ next w'' = next w' /\ is_Some (objs w' !! obj).
Proof.
  intros Hwrite Hrun.
  destruct (objs w' !! obj) as [v'|] eqn:Hv';
    [|unfold bind, client_Get in Hrun; rewrite Hv' in Hrun; discriminate].
  destruct (update_probe_in_place_returns c nn obj g write store_write w' Hwrite)
    as (err0 & w0 & Hrun0 & Hsame & Hnext & _); [eauto|].
  rewrite Hrun0 in Hrun. injection Hrun as <- <-. eauto.
Qed.

(** An invocation of a probe changes nothing but the instance (or the list)
    that the probe works on and the state of the store that it calls, and it
    leaves the default client as it is.  For the probes of [Get], [Update]
    and [UpdateStatus] (the latter two with a mutator that assigns in place)
    that is the instance the probe was built around and the store of the
    client that was the default then; the allocator stands still.  For the
    probes of [Object] and [ObjectList] it is the instance that the
    invocation makes, the only allocation, and the store of the client that
    is the default at the invocation. *)
Theorem invocations_change_only_their_instance_and_store :
  (forall obj w probe w0,
     Get obj w = Ok probe w0 ->
     exists c,
       client (defaultK w) = Some c /\
       forall w' err w'',
         probe w' = Ok err w'' ->
         same_but_obj obj c w' w'' /\ next w'' = next w') /\
  (forall obj opts w probe w0,
     List obj opts w = Ok probe w0 ->
     exists c,
       client (defaultK w) = Some c /\
       forall w' err w'',
         probe w' = Ok err w'' ->
         same_but_list obj c w' w'' /\ next w'' = next w') /\
  (forall nn g opts w probe w0,
     Update nn (in_place g) opts w = Ok probe w0 \/
     UpdateStatus nn (in_place g) opts w = Ok probe w0 ->
     exists c,
       client (defaultK w) = Some c /\
       forall w' err w'',
         probe w' = Ok err w'' ->
         same_but_obj (next w) c w' w'' /\ next w'' = next w') /\
  (forall nn w probe w0,
     Object nn w = Ok probe w0 ->
     forall w' obj err w'',
       probe w' = Ok (obj, err) w'' ->
       exists c',
         client (defaultK w') = Some c' /\
         obj = next w' /\
         same_but_obj obj c' w' w'' /\ next w'' = Pos.succ (next w')) /\
  (forall opts w probe w0,
     ObjectList opts w = Ok probe w0 ->
     forall w' obj err w'',
       probe w' = Ok (obj, err) w'' ->
       exists c',
         client (defaultK w') = Some c' /\
         obj = next w' /\
         same_but_list obj c' w' w'' /\ next w'' = Pos.succ (next w')).
Proof.
  repeat apply conj.
  - intros obj w probe w0 Hb. apply Get_inv in Hb as (c & v & Hc & _ & ->).
    exists c. split; [exact Hc|]. intros w' err w'' Hrun.
    apply client_Get_inv in Hrun as (c0 & v' & [= <-] & _ & _ & ->).
    split; [frame|reflexivity].
  - intros obj opts w probe w0 Hb. apply List_inv in Hb as (c & Hc & ->).
    exists c. split; [exact Hc|]. intros w' err w'' Hrun.
    apply client_List_inv in Hrun as (c0 & l' & [= <-] & _ & _ & ->).
    split; [frame|reflexivity].
  - intros nn g opts w probe w0 Hb.
    destruct (configured_or_unset w) as [[c Hc]|Hc].
    + rewrite (Update_configured _ _ _ _ _ Hc),
              (UpdateStatus_configured _ _ _ _ _ Hc) in Hb.
      exists c. split; [exact Hc|]. intros w' err w'' Hrun.
      destruct Hb as [[= <- _]|[= <- _]].
      * apply (update_probe_in_place_frame c nn (next w) g _
                 (fun v => store_Update v opts) _ _ _) in Hrun;
          [destruct Hrun as (? & ? & _); auto|].
        intros wa v. apply client_Update_run.
      * apply (update_probe_in_place_frame c nn (next w) g _
                 (fun v => store_Status_Update v opts) _ _ _) in Hrun;
          [destruct Hrun as (? & ? & _); auto|].
        intros wa v. apply client_Status_Update_run.
    + unfold Update, UpdateStatus in Hb.
      rewrite !(bind_checkClient_unset _ _ Hc) in Hb. destruct Hb; discriminate.
  - intros nn w probe w0 Hb w' obj err w'' Hrun.
    rewrite (Object_inv _ _ _ _ Hb) in Hrun. unfold bind in Hrun.
    destruct (client_Get _ nn (next w') _) as [e w2|p] eqn:Hget; [|discriminate].
    injection Hrun as <- <- <-.
    apply client_Get_inv in Hget as (c' & v & Hc' & _ & _ & ->).
    exists c'. split; [exact Hc'|]. split; [reflexivity|].
    split; [frame|reflexivity].
  - intros opts w probe w0 Hb w' obj err w'' Hrun.
    rewrite (ObjectList_inv _ _ _ _ Hb) in Hrun. unfold bind in Hrun.
    destruct (client_List _ (next w') opts _) as [e w2|p] eqn:Hget; [|discriminate].
    injection Hrun as <- <- <-.
    apply client_List_inv in Hget as (c' & v & Hc' & _ & _ & ->).
    exists c'. split; [exact Hc'|]. split; [reflexivity|].
    split; [frame|reflexivity].
Qed.

(** ** A probe invoked again and again *)

(** One invocation of the probe of [Object]. *)
Lemma Object_probe_step nn w1 obj err w1' :
  (err <- client_Get (client (defaultK w1)) nn (next w1) ;;
   ret (next w1, err)) (alloc_obj (stamp nn) w1) = Ok (obj, err) w1' ->
  obj = next w1 /\
  next w1' = Pos.succ (next w1) /\
  defaultK w1' = defaultK w1 /\
  is_Some (objs w1' !! obj) /\
  (forall o, o <> next w1 -> objs w1' !! o = objs w1 !! o) /\
  lists w1' = lists w1.
Proof.
  unfold bind.
  destruct (client_Get _ nn (next w1) _) as [e w2|p] eqn:Hget; [|discriminate].
  intros [= <- <- <-].
  apply client_Get_inv in Hget as (c' & v & _ & _ & _ & ->).
  split; [reflexivity|]. split; [reflexivity|]. split; [reflexivity|].
  split; [|split; [|reflexivity]].
  - unfold put_store, put_obj. simpl. rewrite lookup_insert_eq. eauto.
  - intros o Hne. unfold put_store, put_obj, alloc_obj. simpl.
    rewrite !lookup_insert_ne by congruence. reflexivity.
Qed.

(** One invocation of the probe of [ObjectList]. *)
Lemma ObjectList_probe_step opts w1 obj err w1' :
  (err <- client_List (client (defaultK w1)) (next w1) opts ;;
   ret (next w1, err)) (alloc_list new_L w1) = Ok (obj, err) w1' ->
  obj = next w1 /\
  next w1' = Pos.succ (next w1) /\
  defaultK w1' = defaultK w1 /\
  is_Some (lists w1' !! obj) /\
  (forall o, o <> next w1 -> lists w1' !! o = lists w1 !! o) /\
  objs w1' = objs w1.
Proof.
  unfold bind.
  destruct (client_List _ (next w1) opts _) as [e w2|p] eqn:Hget; [|discriminate].
  intros [= <- <- <-].
  apply client_List_inv in Hget as (c' & l & _ & _ & _ & ->).
  split; [reflexivity|]. split; [reflexivity|]. split; [reflexivity|].
  split; [|split; [|reflexivity]].
  - unfold put_store, put_list. simpl. rewrite lookup_insert_eq. eauto.
  - intros o Hne. unfold put_store, put_list, alloc_list. simpl.
    rewrite !lookup_insert_ne by congruence. reflexivity.
Qed.

Lemma invoke_n_S {A} (probe : Go A) n w1 rs w2 :
  invoke_n (S n) probe w1 = Ok rs w2 ->
  exists a w1' rest,
    probe w1 = Ok a w1' /\ invoke_n n probe w1' = Ok rest w2 /\ rs = a :: rest.
Proof.
  simpl. unfold bind.
  destruct (probe w1) as [a w1'|p] eqn:H1; [|discriminate].
  destruct (invoke_n n probe w1') as [rest w2'|p] eqn:Hrest; [|discriminate].
  intros [= <- <-]. exists a, w1', rest. auto.
Qed.

(** A probe of [Object] invoked [n] times in a row.  While a client is set
    the invocations all return.  They return [n] pointers, no two of them the
    same, each to an instance that is there at the end and that no
    invocation has made before the first began; the allocator has moved by
    [n], and the instances that were there before are as they were. *)
Theorem Object_probe_invoked_n_times nn w probe w0 :
  Object nn w = Ok probe w0 ->
  forall n w1,
    (is_Some (client (defaultK w1)) ->
     exists rs w2, invoke_n n probe w1 = Ok rs w2) /\
    (forall rs w2,
       invoke_n n probe w1 = Ok rs w2 ->
       length rs = n /\
       Pos.to_nat (next w2) = (Pos.to_nat (next w1) + n)%nat /\
       NoDup rs.*1 /\
       (forall obj, obj ∈ rs.*1 ->
          (next w1 <= obj)%positive /\ (obj < next w2)%positive /\
          is_Some (objs w2 !! obj)) /\
       (heap_ok w1 -> forall obj, obj ∈ rs.*1 -> objs w1 !! obj = None) /\
       (forall o : loc, (o < next w1)%positive -> objs w2 !! o = objs w1 !! o) /\
       defaultK w2 = defaultK w1).
Proof.
  intros Hb. pose proof (Object_inv _ _ _ _ Hb) as Hprobe.
  induction n as [|n IH]; intros w1.
  - split; [intros _; eexists _, _; reflexivity|].
    intros rs w2 [= <- <-]. simpl.
    split; [reflexivity|]. split; [lia|]. split; [constructor|].
    split; [intros obj Hin; inversion Hin|].
    split; [intros _ obj Hin; inversion Hin|]. split; reflexivity.
  - split.
    + intros [c' Hc']. simpl. unfold bind.
      rewrite Hprobe, (Object_probe_run nn w1 c' Hc').
      destruct (proj1 (IH (put_store c' (store_Get nn (stamp nn) (stores w1 c')).1.1
                      (put_obj (next w1) (store_Get nn (stamp nn) (stores w1 c')).1.2
                         (alloc_obj (stamp nn) w1))))) as (rest & w2 & ->).
      { simpl. rewrite Hc'. eauto. }
      eexists _, _. reflexivity.
    + intros rs w2 Hrun.
      apply invoke_n_S in Hrun as ([obj err] & w1' & rest & H1 & Hrest & ->).
      rewrite Hprobe in H1.
      apply Object_probe_step in H1 as (-> & Hnext & Hk & Hsome & Hkeep & _).
      destruct (proj2 (IH w1') _ _ Hrest)
        as (Hlen & Hn & Hnodup & Hin & _ & Hold & Hk').
      assert (Hlt : (next w1 < next w1')%positive) by lia.
      split; [simpl; congruence|].
      split; [rewrite Hn, Hnext, Pos2Nat.inj_succ; lia|].
      split.
      { simpl. constructor; [|exact Hnodup].
        intros Hmem. apply Hin in Hmem as (Hge & _). lia. }
      split.
      { intros obj Hmem. simpl in Hmem. apply elem_of_cons in Hmem as [->|Hmem].
        - split; [lia|]. split; [lia|]. rewrite (Hold _ Hlt). exact Hsome.
        - apply Hin in Hmem as (Hge & Hlt' & Hs). split; [lia|]. auto. }
      split.
      { intros Hok obj Hmem.
        assert (Hge : (next w1 <= obj)%positive).
        { simpl in Hmem. apply elem_of_cons in Hmem as [->|Hmem]; [lia|].
          apply Hin in Hmem as (Hge & _). lia. }
        destruct (objs w1 !! obj) as [v|] eqn:Hv; [|reflexivity].
        assert (Hs : is_Some (objs w1 !! obj)) by (rewrite Hv; eauto).
        apply (proj1 Hok) in Hs. lia. }
      split; [|congruence].
      intros o Ho. rewrite Hold by lia. apply Hkeep. lia.
Qed.

Lemma same_but_obj_refl obj c w : same_but_obj obj c w w.
Proof. repeat split; reflexivity. Qed.

(** An update probe that returns whenever its pointer holds an instance, and
    then leaves an instance behind it, returns [n] times in a row. *)
Lemma invoke_n_holds (body : Go (option Err)) obj c :
  (forall w',
     is_Some (objs w' !! obj) ->
     exists err w'',
       body w' = Ok err w'' /\ same_but_obj obj c w' w'' /\
       next w'' = next w' /\ is_Some (objs w'' !! obj)) ->
  forall n w',
    is_Some (objs w' !! obj) ->
    exists errs w'',
      invoke_n n body w' = Ok errs w'' /\ length errs = n /\
      same_but_obj obj c w' w'' /\ next w'' = next w' /\ is_Some (objs w'' !! obj).
Proof.
  intros Hbody. induction n as [|n IH]; intros w' Hobj.
  - exists [], w'. split; [reflexivity|]. split; [reflexivity|].
    split; [apply same_but_obj_refl|]. auto.
  - destruct (Hbody w' Hobj) as (err & w1 & H1 & Hsame1 & Hnext1 & Hobj1).
    destruct (IH w1 Hobj1) as (errs & w2 & Hrest & Hlen & Hsame2 & Hnext2 & Hobj2).
    exists (err :: errs), w2. split.
    { simpl. unfold bind. rewrite H1, Hrest. reflexivity. }
    split; [simpl; congruence|].
    split; [exact (same_but_obj_trans _ _ _ _ _ Hsame1 Hsame2)|].
    split; [congruence|exact Hobj2].
Qed.

(** A probe of [Update] or [UpdateStatus] with a mutator that assigns in
    place, invoked [n] times in a row on a pointer that holds an instance, as
    it does from the moment the probe is built: every invocation returns, an
    error of the store at one invocation does not stop the next, and at the
    end the allocator stands where it stood, the one instance is still there,
    and nothing else has changed but that instance and the store of the
    probe. *)
Theorem update_probes_invoked_n_times nn g opts w c :
  client (defaultK w) = Some c ->
  (exists probe w1,
     Update nn (in_place g) opts w = Ok probe w1 /\
     is_Some (objs w1 !! next w) /\
     forall n w',
       is_Some (objs w' !! next w) ->
       exists errs w'',
         invoke_n n probe w' = Ok errs w'' /\ length errs = n /\
         same_but_obj (next w) c w' w'' /\ next w'' = next w' /\
         is_Some (objs w'' !! next w)) /\
  (exists probe w1,
     UpdateStatus nn (in_place g) opts w = Ok probe w1 /\
     is_Some (objs w1 !! next w) /\
     forall n w',
       is_Some (objs w' !! next w) ->
       exists errs w'',
         invoke_n n probe w' = Ok errs w'' /\ length errs = n /\
         same_but_obj (next w) c w' w'' /\ next w'' = next w' /\
         is_Some (objs w'' !! next w)).
Proof.
  intros Hc. split.
  - eexists _, _. split; [apply (Update_configured _ _ _ _ _ Hc)|].
    split; [rewrite objs_alloc_obj; eauto|].
    apply invoke_n_holds. intros w' Hobj.
    apply (update_probe_in_place_returns c nn (next w) g _
             (fun v => store_Update v opts)); [|exact Hobj].
    intros wa v. apply client_Update_run.
  - eexists _, _. split; [apply (UpdateStatus_configured _ _ _ _ _ Hc)|].
    split; [rewrite objs_alloc_obj; eauto|].
    apply invoke_n_holds. intros w' Hobj.
    apply (update_probe_in_place_returns c nn (next w) g _
             (fun v => store_Status_Update v opts)); [|exact Hobj].
    intros wa v. apply client_Status_Update_run.
Qed.

(** ** The addresses in use *)

Lemma heap_ok_same_but_obj obj c w w1 :
  heap_ok w -> same_but_obj obj c w w1 ->
  (next w <= next w1)%positive -> (obj < next w1)%positive ->
  heap_ok w1.
Proof.
  intros [Hobjs Hlists] (_ & Hl & Ho & _) Hle Hlt.
  split; intros o Hs; unfold loc in *.
  - destruct (decide (o = obj)) as [->|Hne]; [exact Hlt|].
    rewrite (Ho o Hne) in Hs. apply Hobjs in Hs. lia.
  - rewrite Hl in Hs. apply Hlists in Hs. lia.
Qed.

Lemma heap_ok_same_but_list obj c w w1 :
  heap_ok w -> same_but_list obj c w w1 ->
  (next w <= next w1)%positive -> (obj < next w1)%positive ->
  heap_ok w1.
Proof.
  intros [Hobjs Hlists] (_ & Hl & Ho & _) Hle Hlt.
  split; intros o Hs; unfold loc in *.
  - rewrite Hl in Hs. apply Hobjs in Hs. lia.
  - destruct (decide (o = obj)) as [->|Hne]; [exact Hlt|].
    rewrite (Ho o Hne) in Hs. apply Hlists in Hs. lia.
Qed.

Lemma heap_ok_alloc_obj v w : heap_ok w -> heap_ok (alloc_obj v w).
Proof.
  intros Hok. apply (heap_ok_same_but_obj (next w) O w); [exact Hok|frame| |];
    unfold alloc_obj; simpl; lia.
Qed.

(** The addresses in use stay below the allocator: [SetClient], the six
    operations and every invocation of a probe (of an update probe with a
    mutator that assigns in place) keep [heap_ok], whichever world the probe
    was built in.  So the address that [new] hands out at a later invocation
    never holds an instance already. *)
Theorem operations_keep_heap_ok w :
  heap_ok w ->
  (forall k' w1, SetClient k' w = Ok tt w1 -> heap_ok w1) /\
  (forall nn f opts probe w1,
     Update nn f opts w = Ok probe w1 \/ UpdateStatus nn f opts w = Ok probe w1 ->
     heap_ok w1) /\
  (forall obj wb probe w0 err w1,
     Get obj wb = Ok probe w0 -> probe w = Ok err w1 -> heap_ok w1) /\
  (forall obj opts wb probe w0 err w1,
     List obj opts wb = Ok probe w0 -> probe w = Ok err w1 -> heap_ok w1) /\
  (forall nn g opts wb probe w0 err w1,
     Update nn (in_place g) opts wb = Ok probe w0 \/
     UpdateStatus nn (in_place g) opts wb = Ok probe w0 ->
     probe w = Ok err w1 -> heap_ok w1) /\
  (forall nn wb probe w0 r w1,
     Object nn wb = Ok probe w0 -> probe w = Ok r w1 ->
     heap_ok w1 /\ objs w !! r.1 = None) /\
  (forall opts wb probe w0 r w1,
     ObjectList opts wb = Ok probe w0 -> probe w = Ok r w1 ->
     heap_ok w1 /\ lists w !! r.1 = None).
Proof.
  intros Hok. repeat apply conj.
  - intros k' w1 [= <-]. exact Hok.
  - intros nn f opts probe w1 Hb.
    destruct (configured_or_unset w) as [[c Hc]|Hc].
    + rewrite (Update_configured _ _ _ _ _ Hc),
              (UpdateStatus_configured _ _ _ _ _ Hc) in Hb.
      destruct Hb as [[= _ <-]|[= _ <-]]; apply heap_ok_alloc_obj, Hok.
    + unfold Update, UpdateStatus in Hb.
      rewrite !(bind_checkClient_unset _ _ Hc) in Hb. destruct Hb; discriminate.
  - intros obj wb probe w0 err w1 Hb Hrun.
    apply Get_inv in Hb as (c & v & _ & _ & ->).
    apply client_Get_inv in Hrun as (c0 & v' & _ & Hv' & _ & ->).
    apply (heap_ok_same_but_obj obj c0 w); [exact Hok|frame|simpl; lia|].
    simpl. apply (proj1 Hok). eexists. exact Hv'.
  - intros obj opts wb probe w0 err w1 Hb Hrun.
    apply List_inv in Hb as (c & _ & ->).
    apply client_List_inv in Hrun as (c0 & l' & _ & Hl' & _ & ->).
    apply (heap_ok_same_but_list obj c0 w); [exact Hok|frame|simpl; lia|].
    simpl. apply (proj2 Hok). eexists. exact Hl'.
  - intros nn g opts wb probe w0 err w1 Hb Hrun.
    destruct (configured_or_unset wb) as [[c Hc]|Hc].
    + rewrite (Update_configured _ _ _ _ _ Hc),
              (UpdateStatus_configured _ _ _ _ _ Hc) in Hb.
      destruct Hb as [[= <- _]|[= <- _]].
      * apply (update_probe_in_place_frame c nn (next wb) g _
                 (fun v => store_Update v opts) _ _ _) in Hrun;
          [|intros wa v; apply client_Update_run].
        destruct Hrun as (Hsame & Hnext & Hs).
        apply (heap_ok_same_but_obj (next wb) c w); [exact Hok|exact Hsame|lia|].
        rewrite Hnext. apply (proj1 Hok), Hs.
      * apply (update_probe_in_place_frame c nn (next wb) g _
                 (fun v => store_Status_Update v opts) _ _ _) in Hrun;
          [|intros wa v; apply client_Status_Update_run].
        destruct Hrun as (Hsame & Hnext & Hs).
        apply (heap_ok_same_but_obj (next wb) c w); [exact Hok|exact Hsame|lia|].
        rewrite Hnext. apply (proj1 Hok), Hs.
    + unfold Update, UpdateStatus in Hb.
      rewrite !(bind_checkClient_unset _ _ Hc) in Hb. destruct Hb; discriminate.
  - intros nn wb probe w0 [obj err] w1 Hb Hrun.
    rewrite (Object_inv _ _ _ _ Hb) in Hrun.
    apply Object_probe_step in Hrun as (-> & Hnext & Hk & _ & Hkeep & Hl).
    split; [|apply (heap_ok_fresh _ Hok)].
    split; intros o Hs; unfold loc in *.
    + destruct (decide (o = next w)) as [->|Hne]; [lia|].
      rewrite (Hkeep o Hne) in Hs. apply (proj1 Hok) in Hs. lia.
    + rewrite Hl in Hs. apply (proj2 Hok) in Hs. lia.
  - intros opts wb probe w0 [obj err] w1 Hb Hrun.
    rewrite (ObjectList_inv _ _ _ _ Hb) in Hrun.
    apply ObjectList_probe_step in Hrun as (-> & Hnext & Hk & _ & Hkeep & Hl).
    split.
    + split; intros o Hs; unfold loc in *.
      * rewrite Hl in Hs. apply (proj1 Hok) in Hs. lia.
      * destruct (decide (o = next w)) as [->|Hne]; [lia|].
        rewrite (Hkeep o Hne) in Hs. apply (proj2 Hok) in Hs. lia.
    + simpl. destruct (lists w !! next w) as [l|] eqn:Hv; [|reflexivity].
      assert (Hs : is_Some (lists w !! next w)) by (rewrite Hv; eauto).
      apply (proj2 Hok) in Hs. lia.
Qed.

(** ** [Object] and [Get], [ObjectList] and [List] *)

(** While a client is set, an invocation of the probe of [Object(nn)] is
    [Get] built around a new instance with [nn] stamped onto it and invoked
    at once; likewise [ObjectList] and [List].  With no client set at the
    invocation the two part: the probe of [Object], which does not call
    [checkClient] again, stops on a nil dereference, where [Get] panics with
    the configuration error. *)
Theorem Object_probe_is_Get_on_a_new_instance :
  (forall nn w probe w0,
     Object nn w = Ok probe w0 ->
     forall w',
       (is_Some (client (defaultK w')) ->
        probe w' =
          (obj <- new_obj ;;
           update obj (SetName (Name nn)) ;;
           update obj (SetNamespace (Namespace nn)) ;;
           get <- Get obj ;;
           err <- get ;;
           ret (obj, err)) w') /\
       (client (defaultK w') = None ->
        probe w' = Panic NilDereference /\
        (obj <- new_obj ;;
         update obj (SetName (Name nn)) ;;
         update obj (SetNamespace (Namespace nn)) ;;
         get <- Get obj ;;
         err <- get ;;
         ret (obj, err)) w' = Panic client_not_set)) /\
  (forall opts w probe w0,
     ObjectList opts w = Ok probe w0 ->
     forall w',
       (is_Some (client (defaultK w')) ->
        probe w' =
          (obj <- new_list ;;
           list <- List obj opts ;;
           err <- list ;;
           ret (obj, err)) w') /\
       (client (defaultK w') = None ->
        probe w' = Panic NilDereference /\
        (obj <- new_list ;;
         list <- List obj opts ;;
         err <- list ;;
         ret (obj, err)) w' = Panic client_not_set)).
Proof.
  split.
  - intros nn w probe w0 Hb w'. pose proof (Object_inv _ _ _ _ Hb w') as Hprobe.
    split.
    + intros [c' Hc']. rewrite Hprobe, new_stamped. unfold bind at 2.
      rewrite (Get_configured (alloc_obj (stamp nn) w') c' (next w') (stamp nn) Hc'
                 (objs_alloc_obj _ _)).
      rewrite key_stamp, Hc'. reflexivity.
    + intros Hc'. split; [rewrite Hprobe, Hc'; reflexivity|].
      rewrite new_stamped. unfold bind at 1. unfold Get.
      rewrite (bind_checkClient_unset _ (alloc_obj (stamp nn) w') Hc'). reflexivity.
  - intros opts w probe w0 Hb w'. pose proof (ObjectList_inv _ _ _ _ Hb w') as Hprobe.
    split.
    + intros [c' Hc']. rewrite Hprobe. unfold bind at 2. unfold new_list.
      unfold bind at 2. fold (alloc_list new_L w').
      rewrite (List_configured (alloc_list new_L w') c' (next w') opts Hc').
      rewrite Hc'. reflexivity.
    + intros Hc'. split; [rewrite Hprobe, Hc'; reflexivity|].
      unfold bind at 1. unfold new_list. unfold bind at 1. unfold List.
      fold (alloc_list new_L w').
      rewrite (bind_checkClient_unset _ (alloc_list new_L w') Hc'). reflexivity.
Qed.

End Operations.

(** ** Concrete runs *)

(** In the process of the test [Object] returns a probe once [SetClient] has
    run, and not before. *)
Lemma Object_returns_after_SetClient :
  (exists probe, Object test_nn configured_world = Ok probe configured_world) /\
  ~ (exists probe, Object test_nn test_world = Ok probe test_world).
Proof.
  destruct (operations_return_iff_client_set configured_world)
    as (_ & _ & _ & _ & Hset & _).
  destruct (operations_return_iff_client_set test_world)
    as (_ & _ & _ & _ & Hunset & _).
  split.
  - apply Hset. eexists. reflexivity.
  - intros Hret. apply Hunset in Hret. destruct Hret as [c Hc]. discriminate Hc.
Defined.

(** An update probe built while the fake client is the default, invoked after
    [SetClient(nil)]: the increment reaches the store of the fake client. *)
Lemma Update_probe_after_SetClient_nil :
  client (defaultK configured_world) = Some fc /\
  exists probe w1,
    Update test_nn (in_place incr_replicas) [] configured_world = Ok probe w1 /\
    match (SetClient None ;; probe) w1 with
    | Ok None w' =>
      client (defaultK w') = None /\
      Spec_Replicas <$> fake.lookup test_nn (stores w' fc) = Some (Some 6%Z)
    | _ => False
    end.
Proof.
  split; [reflexivity|].
  destruct (update_probes_keep_their_client test_nn incr_replicas []
              configured_world fc eq_refl) as [(probe & w1 & Hbuild & Hrun) _].
  exists probe, w1. split; [exact Hbuild|].
  rewrite Hrun.
  rewrite (Update_configured configured_world fc _ _ _ eq_refl) in Hbuild.
  injection Hbuild as <- <-. vm_compute. split; reflexivity.
Defined.

(** The probe of [Get] on the instance at address 1, built and invoked while
    the fake client is the default: the other store and the allocator are as
    they were. *)
Lemma Get_probe_leaves_the_other_store :
  exists probe w'',
    Get 1 world_with_deployment = Ok probe world_with_deployment /\
    probe world_with_deployment = Ok None w'' /\
    stores w'' other_client = other_store /\
    next w'' = 2.
Proof.
  destruct (@invocations_change_only_their_instance_and_store Deployment
              DeploymentList fake.Store fake.Err fake.UpdateOption
              fake.ListOption _ _ _) as (HGet & _).
  destruct (HGet 1 world_with_deployment _ _ eq_refl) as (c & Hc & Hframe).
  injection Hc as <-.
  eexists _, _. split; [reflexivity|].
  assert (Hrun : client_Get (Some fc) test_nn 1 world_with_deployment
                 = Ok None (put_store fc fake.createFakeClient
                              (put_obj 1 fake.exampleDeployment
                                 world_with_deployment)))
    by reflexivity.
  split; [exact Hrun|].
  destruct (Hframe _ _ _ Hrun) as ((_ & _ & _ & Hstores) & Hnext).
  split; [rewrite Hstores by discriminate; reflexivity|].
  rewrite Hnext. reflexivity.
Defined.

(** The probe of [Object] invoked three times in a row in the process of the
    test. *)
Lemma Object_probe_invoked_3_times :
  exists probe rs w2,
    Object test_nn configured_world = Ok probe configured_world /\
    invoke_n 3 probe configured_world = Ok rs w2 /\
    rs = [(1, None); (2, None); (3, None)] /\
    NoDup rs.*1 /\
    next w2 = 4.
Proof.
  destruct (Object_probe_invoked_n_times test_nn configured_world _ _
              eq_refl 3%nat configured_world) as [Hret Hfacts].
  destruct Hret as (rs & w2 & Hrun); [exists fc; reflexivity|].
  destruct (Hfacts rs w2 Hrun) as (_ & _ & Hnodup & _).
  eexists _, rs, w2. split; [reflexivity|]. split; [exact Hrun|].
  vm_compute in Hrun. injection Hrun as <- <-.
  split; [reflexivity|]. split; [exact Hnodup|]. reflexivity.
Defined.

(** An update probe invoked three times in a row in the process of the test,
    right after it has been built. *)
Lemma Update_probe_invoked_3_times :
  client (defaultK configured_world) = Some fc /\
  exists probe w1 errs w'',
    Update test_nn (in_place incr_replicas) [] configured_world = Ok probe w1 /\
    invoke_n 3 probe world_with_deployment = Ok errs w'' /\
    length errs = 3%nat /\
    next w'' = next world_with_deployment.
Proof.
  split; [reflexivity|].
  destruct (update_probes_invoked_n_times test_nn incr_replicas []
              configured_world fc eq_refl) as [(probe & w1 & Hbuild & _ & Hrun) _].
  destruct (Hrun 3%nat world_with_deployment)
    as (errs & w'' & Hn & Hlen & _ & Hnext & _).
  { exists (stamp test_nn). reflexivity. }
  exists probe, w1, errs, w''. auto.
Defined.

(** From the start of the test the addresses in use are below the allocator,
    and they still are after an invocation of the probe of [Object]. *)
Lemma heap_ok_after_Object_probe :
  heap_ok configured_world /\
  exists probe r w1,
    Object test_nn configured_world = Ok probe configured_world /\
    probe configured_world = Ok r w1 /\
    heap_ok w1 /\ objs configured_world !! r.1 = None.
Proof.
  assert (Hok : heap_ok configured_world)
    by apply heap_ok_set_defaultK, heap_ok_init.
  split; [exact Hok|].
  destruct (operations_keep_heap_ok configured_world Hok)
    as (_ & _ & _ & _ & _ & HObject & _).
  eexists _, _, _. split; [reflexivity|].
  assert (Hrun : forall probe,
             Object test_nn configured_world = Ok probe configured_world ->
             probe configured_world
             = Ok (1, None)
                  (put_store fc fake.createFakeClient
                     (put_obj 1 fake.exampleDeployment
                        (alloc_obj (stamp test_nn) configured_world))))
    by (intros probe [= <-]; reflexivity).
  split; [apply Hrun; reflexivity|].
  apply (HObject test_nn configured_world _ configured_world _ _ eq_refl).
  apply Hrun. reflexivity.
Defined.

(** In the process of the test the probe of [Object] and [Get] on a new
    instance do the same. *)
Lemma Object_probe_is_Get_in_the_test :
  exists probe,
    Object test_nn configured_world = Ok probe configured_world /\
    probe configured_world =
      (obj <- new_obj ;;
       update obj (SetName (Name test_nn)) ;;
       update obj (SetNamespace (Namespace test_nn)) ;;
       get <- Get obj ;;
       err <- get ;;
       ret (obj, err)) configured_world.
Proof.
  eexists. split; [reflexivity|].
  apply (proj1 (@Object_probe_is_Get_on_a_new_instance Deployment DeploymentList
                  fake.Store fake.Err fake.UpdateOption fake.ListOption _ _ _)
           test_nn configured_world _ _ eq_refl configured_world).
  exists fc. reflexivity.
Defined.
